(** * MusicBotik: the voice-chat music manager (src/core/music.py)

    A shallow embedding of [MusicManager] and of the [.play] handler of
    src/core/client.py.  The manager's mutable fields, the files it touches
    and the calls it makes to its external engines (pytgcalls, yt-dlp,
    ffmpeg) are threaded through an explicit state; Python exceptions are
    results of a small state-and-exception monad. *)

From stdpp Require Import gmap strings list fin_maps pretty.
From Stdlib Require Import ZArith Ascii.

Local Open Scope Z_scope.
Local Open Scope string_scope.
Local Open Scope list_scope.

(** ** Data *)

Abbreviation path := string (only parsing).

(** A Python object reference: the address of a group-call object. *)
Abbreviation addr := nat (only parsing).

(** The keyword arguments given to [ffmpeg.output]. *)
Record pcm_format := PcmFormat {
  fmt_format : string;
  fmt_acodec : string;
  fmt_ac : Z;
  fmt_ar : string
}.

(** What a regular file holds, by provenance. *)
Inductive content :=
| Downloaded (source : string)
| Converted (f : pcm_format) (input : content)
| Truncated (f : pcm_format) (input : content)
| Attachment (media : string).

(** The group-call object returned by [get_file_group_call()]: the manager
    only ever writes its [input_filename] attribute. *)
Record call := Call { input_filename : option path }.

Inductive playout_op :=
| stop_playout | pause_playout | resume_playout | restart_playout
| set_is_mute (b : bool).

(** Calls that leave the manager, in the order they are made. *)
Inductive event :=
| EvFactory
| EvStart (a : addr) (chat_id : Z)
| EvStop (a : addr)
| EvYtdl (source : string)
| EvFfmpeg (input output : path) (f : pcm_format)
| EvSetInput (a : addr) (p : path)
| EvPlayout (a : addr) (op : playout_op).

Inductive exn := KeyError | FileNotFoundError | Unavailable | LibraryError.

#[global] Instance pcm_format_eq_dec : EqDecision pcm_format.
Proof. solve_decision. Defined.
#[global] Instance content_eq_dec : EqDecision content.
Proof. solve_decision. Defined.
#[global] Instance call_eq_dec : EqDecision call.
Proof. solve_decision. Defined.
#[global] Instance playout_op_eq_dec : EqDecision playout_op.
Proof. solve_decision. Defined.
#[global] Instance event_eq_dec : EqDecision event.
Proof. solve_decision. Defined.
#[global] Instance exn_eq_dec : EqDecision exn.
Proof. solve_decision. Defined.

(** [self.group_calls] maps a chat id to an object reference; [objects] is
    the store those references point into; [fs] maps the path of every
    regular file to what it holds. *)
Record state := State {
  group_calls : gmap Z addr;
  objects : gmap addr call;
  fs : gmap path content;
  trace : list event
}.

Definition set_group_calls (g : gmap Z addr) (st : state) : state :=
  State g (objects st) (fs st) (trace st).
Definition set_objects (o : gmap addr call) (st : state) : state :=
  State (group_calls st) o (fs st) (trace st).
Definition set_fs (f : gmap path content) (st : state) : state :=
  State (group_calls st) (objects st) f (trace st).
Definition log (e : event) (st : state) : state :=
  State (group_calls st) (objects st) (fs st) (trace st ++ [e]).

(** ** The engines outside the program

    What an external call does is not in the source: it is a parameter.
    Each answer may depend on everything that was called before; that of
    yt-dlp also on the files it finds when it starts. *)

Record ytdl_result := YtdlResult {
  yt_exts : list string;   (* files ytdl_out.<ext> the run leaves behind *)
  yt_raises : bool
}.

Inductive ffmpeg_result := FfDone | FfError (partial_output : bool).

Record world := World {
  factory_ok : list event -> bool;
  start_ok : list event -> addr -> Z -> bool;
  stop_ok : list event -> addr -> bool;
  ytdl_run : list event -> gmap path content -> string -> ytdl_result;
  ffmpeg_run : list event -> path -> content -> ffmpeg_result;
  playout_ok : list event -> addr -> playout_op -> bool
}.

(** ** State and exceptions *)

Inductive res (A : Type) :=
| Ret (a : A)
| Raise (e : exn).
Arguments Ret {A} a.
Arguments Raise {A} e.

Definition M (A : Type) : Type := state -> res A * state.

Definition ret {A} (a : A) : M A := fun st => (Ret a, st).
Definition raise {A} (e : exn) : M A := fun st => (Raise e, st).
Definition bind {A B} (m : M A) (k : A -> M B) : M B :=
  fun st => match m st with
            | (Ret a, st') => k a st'
            | (Raise e, st') => (Raise e, st')
            end.
(** [try: m  except Exception as e: h e] *)
Definition catch {A} (m : M A) (h : exn -> M A) : M A :=
  fun st => match m st with
            | (Ret a, st') => (Ret a, st')
            | (Raise e, st') => h e st'
            end.
Definition gets {A} (f : state -> A) : M A := fun st => (Ret (f st), st).
Definition modify (f : state -> state) : M unit := fun st => (Ret tt, f st).

Declare Scope py_scope.
Delimit Scope py_scope with py.
Notation "'let!' x ':=' m 'in' k" := (bind m (fun x => k))
  (at level 10, x name, m at level 100, k at level 200) : py_scope.
Notation "m1 ';;;' m2" := (bind m1 (fun _ => m2))
  (at level 100, right associativity) : py_scope.
Local Open Scope py_scope.

(** ** Paths *)

(** [f"{chat_id}.raw"]; [pretty] prints a [Z] the way Python's [str] prints
    an [int]. *)
Definition raw_name (chat_id : Z) : path := pretty chat_id +:+ ".raw".

(** [str(self.downloads_dir / "ytdl_out.mp3")] *)
Definition ytdl_stem : string := "data/downloads/ytdl_out.".
Definition ytdl_path (ext : string) : path := ytdl_stem +:+ ext.
Definition audio_file_path : path := ytdl_path "mp3".

Fixpoint strip_prefix (pre s : string) : option string :=
  match pre, s with
  | EmptyString, _ => Some s
  | String a pre', String b s' =>
      if Ascii.eqb a b then strip_prefix pre' s' else None
  | String _ _, EmptyString => None
  end.

Fixpoint has_slash (s : string) : bool :=
  match s with
  | EmptyString => false
  | String a s' => Ascii.eqb a "/"%char || has_slash s'
  end.

(** [self.downloads_dir.glob("ytdl_out.*")]: the entries of the downloads
    directory itself whose name starts with [ytdl_out.]. *)
Definition glob_ytdl_out (p : path) : bool :=
  match strip_prefix ytdl_stem p with
  | Some rest => negb (has_slash rest)
  | None => false
  end.

(** A command-line argument that ffmpeg reads as an option and not as a
    file name: it starts with [-] and goes on. *)
Definition option_like (p : path) : bool :=
  match p with
  | String "-"%char (String _ _) => true
  | _ => false
  end.

(** ** File and dictionary primitives *)

(** The files left when every match of [glob("ytdl_out.*")] is unlinked;
    every entry of [fs] is a regular file, so [is_file()] holds of each. *)
Definition unlink_ytdl_out (f : gmap path content) : gmap path content :=
  filter (fun pc => glob_ytdl_out pc.1 = false) f.

(** [os.path.exists(p)], [Path.exists()] *)
Definition path_exists (p : path) : M bool :=
  gets (fun st => bool_decide (is_Some (fs st !! p))).

(** [os.remove(p)], on a disk whose paths are regular files that the
    process may remove (see [fs]): its only error is [FileNotFoundError]. *)
Definition os_remove (p : path) : M unit :=
  fun st => match fs st !! p with
            | Some _ => (Ret tt, set_fs (delete p (fs st)) st)
            | None => (Raise FileNotFoundError, st)
            end.

(** [chat_id in self.group_calls] *)
Definition in_group_calls (chat_id : Z) : M bool :=
  gets (fun st => bool_decide (is_Some (group_calls st !! chat_id))).

(** [self.group_calls[chat_id]] *)
Definition getitem (chat_id : Z) : M addr :=
  fun st => match group_calls st !! chat_id with
            | Some a => (Ret a, st)
            | None => (Raise KeyError, st)
            end.

(** [del self.group_calls[chat_id]] *)
Definition delitem (chat_id : Z) : M unit :=
  fun st => match group_calls st !! chat_id with
            | Some _ => (Ret tt, set_group_calls (delete chat_id (group_calls st)) st)
            | None => (Raise KeyError, st)
            end.

(** [self.group_calls[chat_id] = a] *)
Definition setitem (chat_id : Z) (a : addr) : M unit :=
  modify (fun st => set_group_calls (<[chat_id := a]> (group_calls st)) st).

(** ** MusicManager *)

(** [format="s16le", acodec="pcm_s16le", ac=2, ar="48k"] *)
Definition voice_format : pcm_format :=
  {| fmt_format := "s16le"; fmt_acodec := "pcm_s16le"; fmt_ac := 2; fmt_ar := "48k" |}.

(** The result of [get_status]. *)
Record status := Status {
  connected : bool;
  status_chat_id : Z;
  has_group_call : bool
}.

(** [PYTGCALLS_AVAILABLE]: the module sets it to [True] once pytgcalls is
    imported.  The [except ImportError] branch, which would set it to
    [False], calls [logger] first, a name the module binds only further
    down: without pytgcalls the import of music.py ends in a [NameError],
    and wherever a [MusicManager] exists the flag is [True]. *)
Definition PYTGCALLS_AVAILABLE : bool := true.

Section MusicManager.
Variable w : world.

(** [GroupCallFactory(self.client, ...).get_file_group_call()]: a new
    object, or an exception of the library. *)
Definition get_file_group_call : M addr :=
  fun st =>
    if factory_ok w (trace st) then
      let a := fresh (dom (objects st)) in
      (Ret a, log EvFactory (set_objects (<[a := Call None]> (objects st)) st))
    else (Raise LibraryError, log EvFactory st).

(** [await call.start(chat_id)] *)
Definition call_start (a : addr) (chat_id : Z) : M unit :=
  fun st =>
    (if start_ok w (trace st) a chat_id then Ret tt else Raise LibraryError,
     log (EvStart a chat_id) st).

(** [await call.stop()] *)
Definition call_stop (a : addr) : M unit :=
  fun st =>
    (if stop_ok w (trace st) a then Ret tt else Raise LibraryError,
     log (EvStop a) st).

(** [call.stop_playout()], [call.pause_playout()], ... *)
Definition call_playout (a : addr) (op : playout_op) : M unit :=
  fun st =>
    (if playout_ok w (trace st) a op then Ret tt else Raise LibraryError,
     log (EvPlayout a op) st).

(** [call.input_filename = p] *)
Definition set_input_filename (a : addr) (p : path) : M unit :=
  modify (fun st => log (EvSetInput a p)
                        (set_objects (<[a := Call (Some p)]> (objects st)) st)).

(** [with YoutubeDL(self.ytdlopts) as ydl: ydl.extract_info(source)]: with
    [outtmpl] fixed, whatever the run writes is named [ytdl_out.<ext>]. *)
Definition ytdl_write (source : string) (exts : list string)
    (f : gmap path content) : gmap path content :=
  foldr (fun ext f => <[ytdl_path ext := Downloaded source]> f) f exts.

Definition extract_info (source : string) : M unit :=
  fun st =>
    let r := ytdl_run w (trace st) (fs st) source in
    (if yt_raises r then Raise LibraryError else Ret tt,
     log (EvYtdl source) (set_fs (ytdl_write source (yt_exts r) (fs st)) st)).

(** [ffmpeg.input(i).output(o, ...).overwrite_output().run()] runs
    [ffmpeg -i i -f s16le -ac 2 -acodec pcm_s16le -ar 48k o -y].  The
    output name stands alone on that command line: when it starts with [-],
    ffmpeg takes it for an option it does not know and exits before it opens
    a file.  ffmpeg also fails on an input that does not exist; a failed
    run may leave a truncated output behind. *)
Definition ffmpeg_convert (input output : path) (f : pcm_format) : M unit :=
  fun st =>
    let st' := log (EvFfmpeg input output f) st in
    if option_like output then (Raise LibraryError, st')
    else
      match fs st !! input with
      | None => (Raise LibraryError, st')
      | Some c =>
          match ffmpeg_run w (trace st) input c with
          | FfDone => (Ret tt, set_fs (<[output := Converted f c]> (fs st)) st')
          | FfError true =>
              (Raise LibraryError, set_fs (<[output := Truncated f c]> (fs st)) st')
          | FfError false => (Raise LibraryError, st')
          end
      end.

Definition _get_call (chat_id : Z) : M addr :=
  if negb PYTGCALLS_AVAILABLE then raise Unavailable
  else
    let! present := in_group_calls chat_id in
    (if negb present then
       catch (let! a := get_file_group_call in setitem chat_id a)
             (fun e => raise e)
     else ret tt) ;;;
    getitem chat_id.

Definition join_voice_chat (chat_id : Z) : M bool :=
  catch (let! _ := _get_call chat_id in
         let! a := getitem chat_id in
         call_start a chat_id ;;;
         ret true)
        (fun _ => ret false).

Definition leave_voice_chat (chat_id : Z) : M bool :=
  catch (let! present := in_group_calls chat_id in
         if present then
           let! a := getitem chat_id in
           call_stop a ;;;
           delitem chat_id ;;;
           catch (os_remove (raw_name chat_id))
                 (fun e => match e with
                           | FileNotFoundError => ret tt
                           | _ => raise e
                           end) ;;;
           ret true
         else ret false)
        (fun _ => ret false).

(** [for file in self.downloads_dir.glob("ytdl_out.*"): if file.is_file():
    file.unlink()] *)
Definition clean_downloads : M unit :=
  modify (fun st => set_fs (unlink_ytdl_out (fs st)) st).

Definition download_audio (source : string) : M (option path) :=
  catch (clean_downloads ;;;
         extract_info source ;;;
         let! found := path_exists audio_file_path in
         if found then ret (Some audio_file_path) else ret None)
        (fun _ => ret None).

Definition convert_audio (input_file : path) (chat_id : Z) : M path :=
  let output_file := raw_name chat_id in
  catch (let! old := path_exists output_file in
         (if old then os_remove output_file else ret tt) ;;;
         ffmpeg_convert input_file output_file voice_format ;;;
         os_remove input_file ;;;
         ret output_file)
        (fun e => raise e).

(** [if not audio_file]: [None] and the empty string are false. *)
Definition truthy (o : option string) : bool :=
  match o with
  | Some (String _ _) => true
  | _ => false
  end.

Definition play_audio (chat_id : Z) (source : string) : M bool :=
  catch (let! present := in_group_calls chat_id in
         if negb present then ret false
         else
           let! audio_file := download_audio source in
           if negb (truthy audio_file) then ret false
           else
             let! raw_file := convert_audio (default "" audio_file) chat_id in
             let! a := getitem chat_id in
             set_input_filename a raw_file ;;;
             ret true)
        (fun _ => ret false).

Definition play_from_file (chat_id : Z) (file_path : path) : M bool :=
  catch (let! present := in_group_calls chat_id in
         if negb present then ret false
         else
           let! raw_file := convert_audio file_path chat_id in
           let! a := getitem chat_id in
           set_input_filename a raw_file ;;;
           ret true)
        (fun _ => ret false).

(** [stop_audio], [pause_audio], [resume_audio], [replay_audio],
    [mute_audio] and [unmute_audio] differ in the method they call. *)
Definition playout_command (op : playout_op) (chat_id : Z) : M bool :=
  catch (let! present := in_group_calls chat_id in
         if present then
           let! a := getitem chat_id in
           call_playout a op ;;;
           ret true
         else ret false)
        (fun _ => ret false).

Definition stop_audio := playout_command stop_playout.
Definition pause_audio := playout_command pause_playout.
Definition resume_audio := playout_command resume_playout.
Definition replay_audio := playout_command restart_playout.
Definition mute_audio := playout_command (set_is_mute true).
Definition unmute_audio := playout_command (set_is_mute false).

Definition get_status (chat_id : Z) : M status :=
  let! is_connected := in_group_calls chat_id in
  ret {| connected := is_connected;
         status_chat_id := chat_id;
         has_group_call := is_connected |}.

End MusicManager.

(** ** The [.play] handler (src/core/client.py) *)

(** The file of the message a [.play] replies to: its MIME type, and where
    Telethon's [download_media()] saves it. *)
Record reply_file := ReplyFile {
  mime_type : option string;
  saved_as : path;
  media : string
}.

(** [event.get_reply_message()]: no reply, or a message with or without a
    file. *)
Record play_event := PlayEvent {
  event_chat_id : Z;
  event_source : string;     (* event.pattern_match.group(1) *)
  event_reply : option (option reply_file)
}.

Inductive reply_action :=
| respond (text : string)
| edit (text : string).

(** [str.startswith] *)
Definition startswith (pre s : string) : bool :=
  bool_decide (is_Some (strip_prefix pre s)).

(** [reply and reply.file and reply.file.mime_type and
    reply.file.mime_type.startswith('audio')] *)
Definition audio_reply (r : option (option reply_file)) : option reply_file :=
  match r with
  | Some (Some f) =>
      match mime_type f with
      | Some (String a m) => if startswith "audio" (String a m) then Some f else None
      | _ => None
      end
  | _ => None
  end.

(** [await reply.download_media()] *)
Definition download_media (f : reply_file) : M path :=
  fun st => (Ret (saved_as f),
             set_fs (<[saved_as f := Attachment (media f)]> (fs st)) st).

Definition not_joined_text : string := "❌ Not joined to voice chat. Use .join first".

Section Handlers.
Variable w : world.

(** The replies are listed in the order they are sent; sending them is
    taken to succeed, and the manager's methods catch their own exceptions,
    so the handler's [except] branch is never entered. *)
Definition play_handler (ev : play_event) : M (list reply_action) :=
  let source := event_source ev in
  let chat_id := event_chat_id ev in
  let reply := event_reply ev in
  let! joined := in_group_calls chat_id in
  if negb joined then ret [respond not_joined_text]
  else
    match audio_reply reply with
    | Some f =>
        let! audio_file := download_media f in
        let! success := play_from_file w chat_id audio_file in
        ret [respond "🎵 Downloading..."; edit "⬇️ Downloading audio file...";
             edit "🔄 Converting...";
             edit (if success then "▶️ Playing..." else "❌ Failed to play audio")]
    | None =>
        let! success := play_audio w chat_id source in
        ret [respond "🎵 Downloading..."; edit "⬇️ Downloading from URL...";
             edit (if success then "▶️ Playing..." else "❌ Failed to play audio")]
    end.

(** ** Commands

    Every handler runs on one event loop, and a handler gives way to the
    others only where it awaits the Telegram or call library.
    [download_audio], [convert_audio], [play_audio] and [play_from_file]
    await nothing but each other, so each of them runs from start to end
    with no other handler in between.  [leave_voice_chat] awaits
    [call.stop()] and changes the manager afterwards: as a command it is
    either whole ([CLeave]) or in its two halves, with other commands in
    between. *)

Definition leave_before_stop (chat_id : Z) : M bool :=
  catch (let! present := in_group_calls chat_id in
         if present then
           let! a := getitem chat_id in
           call_stop w a ;;;
           ret true
         else ret false)
        (fun _ => ret false).

Definition leave_after_stop (chat_id : Z) : M bool :=
  catch (delitem chat_id ;;;
         catch (os_remove (raw_name chat_id))
               (fun e => match e with
                         | FileNotFoundError => ret tt
                         | _ => raise e
                         end) ;;;
         ret true)
        (fun _ => ret false).

Inductive command :=
| CJoin (chat_id : Z)
| CLeave (chat_id : Z)
| CLeaveBegin (chat_id : Z)
| CLeaveEnd (chat_id : Z)
| CPlay (chat_id : Z) (source : string)
| CPlayFile (chat_id : Z) (f : reply_file)
| CPlayout (op : playout_op) (chat_id : Z)
| CStatus (chat_id : Z).

Definition exec (c : command) (st : state) : state :=
  match c with
  | CJoin chat_id => (join_voice_chat w chat_id st).2
  | CLeave chat_id => (leave_voice_chat w chat_id st).2
  | CLeaveBegin chat_id => (leave_before_stop chat_id st).2
  | CLeaveEnd chat_id => (leave_after_stop chat_id st).2
  | CPlay chat_id source => (play_audio w chat_id source st).2
  | CPlayFile chat_id f =>
      (bind (download_media f) (play_from_file w chat_id) st).2
  | CPlayout op chat_id => (playout_command w op chat_id st).2
  | CStatus chat_id => (get_status chat_id st).2
  end.

Definition run (cs : list command) (st : state) : state :=
  foldl (fun st c => exec c st) st cs.

(** The states a run goes through, the last one first. *)
Fixpoint run_states (cs : list command) (st : state) : list state :=
  match cs with
  | [] => [st]
  | c :: cs' => run_states cs' (exec c st) ++ [st]
  end.

End Handlers.

(** A manager as [__init__] leaves it, over the files already on disk. *)
Definition init_state (files : gmap path content) : state :=
  State ∅ ∅ files [].

(** What the transport of a chat plays from: the file named by its call
    object's [input_filename]. *)
Definition transport_input (st : state) (chat_id : Z) : option path :=
  a ← group_calls st !! chat_id;
  c ← objects st !! a;
  input_filename c.

Definition transport_content (st : state) (chat_id : Z) : option content :=
  p ← transport_input st chat_id;
  fs st !! p.

(** ** Worlds to run the definitions in *)

(** Every engine works; yt-dlp leaves the audio and a thumbnail. *)
Definition good_world : world :=
  {| factory_ok := fun _ => true;
     start_ok := fun _ _ _ => true;
     stop_ok := fun _ _ => true;
     ytdl_run := fun _ _ _ => YtdlResult ["mp3"; "jpg"] false;
     ffmpeg_run := fun _ _ _ => FfDone;
     playout_ok := fun _ _ _ => true |}.

(** As [good_world], but ffmpeg fails on what was downloaded from [bad]. *)
Definition bad_ffmpeg_world (bad : string) (partial_output : bool) : world :=
  {| factory_ok := fun _ => true;
     start_ok := fun _ _ _ => true;
     stop_ok := fun _ _ => true;
     ytdl_run := fun _ _ _ => YtdlResult ["mp3"; "jpg"] false;
     ffmpeg_run := fun _ _ c =>
       if decide (c = Downloaded bad) then FfError partial_output else FfDone;
     playout_ok := fun _ _ _ => true |}.


(** As [good_world], but yt-dlp returns without leaving any file. *)
Definition no_output_world : world :=
  {| factory_ok := fun _ => true;
     start_ok := fun _ _ _ => true;
     stop_ok := fun _ _ => true;
     ytdl_run := fun _ _ _ => YtdlResult [] false;
     ffmpeg_run := fun _ _ _ => FfDone;
     playout_ok := fun _ _ _ => true |}.

(** ** States and predicates used in the statements *)

Definition first_char (s : string) : option ascii :=
  match s with
  | EmptyString => None
  | String a _ => Some a
  end.

(** What yt-dlp answers when [download_audio] calls it in [st]: it starts
    from the files of [st] less the [ytdl_out.*] entries. *)
Abbreviation ytdl_answer w source st :=
  (ytdl_run w (trace st) (unlink_ytdl_out (fs st)) source).

(** [download_audio] in one step. *)
Definition fetched (w : world) (source : string) (st : state) : state :=
  let r := ytdl_answer w source st in
  State (group_calls st) (objects st)
        (ytdl_write source (yt_exts r) (unlink_ytdl_out (fs st)))
        (trace st ++ [EvYtdl source]).

(** [convert_audio] in one step: the state ffmpeg starts from has no file at
    the output name. *)
Definition transcoding (input_file : path) (chat_id : Z) (st : state)
    (files : gmap path content) : state :=
  State (group_calls st) (objects st) files
        (trace st ++ [EvFfmpeg input_file (raw_name chat_id) voice_format]).

(** The hand-off: [self.group_calls[chat_id].input_filename = raw_file]. *)
Definition install (a : addr) (raw_file : path) (st : state) : state :=
  log (EvSetInput a raw_file)
      (set_objects (<[a := Call (Some raw_file)]> (objects st)) st).

(** How far a [play_audio] gets, read off the answers of the engines and
    off the name of the chat's raw file, which ffmpeg must take for a file
    name. *)
Inductive stage :=
| NotJoined
| FetchFailed
| TranscodeFailed (partial_output : bool)
| Played.

Definition play_stage (w : world) (chat_id : Z) (source : string) (st : state) : stage :=
  match group_calls st !! chat_id with
  | None => NotJoined
  | Some _ =>
      let r := ytdl_answer w source st in
      if yt_raises r || negb (bool_decide ("mp3" ∈ yt_exts r)) then FetchFailed
      else if option_like (raw_name chat_id) then TranscodeFailed false
      else match ffmpeg_run w (trace st ++ [EvYtdl source])
                   audio_file_path (Downloaded source) with
           | FfDone => Played
           | FfError b => TranscodeFailed b
           end
  end.

(** The state [_get_call] leaves after creating the call object of a chat. *)
Definition created (chat_id : Z) (st : state) : state :=
  let a := fresh (dom (objects st)) in
  State (<[chat_id := a]> (group_calls st)) (<[a := Call None]> (objects st))
        (fs st) (trace st ++ [EvFactory]).

(** No chat's object is another chat's, and every object in the registry is
    in the store. *)
Definition registry_ok (st : state) : Prop :=
  (forall c a, group_calls st !! c = Some a -> a ∈ dom (objects st))
  /\ (forall c1 c2 a, group_calls st !! c1 = Some a ->
                      group_calls st !! c2 = Some a -> c1 = c2).

(** The calls that one [play_audio chat_id source] can make. *)
Definition pipeline_event (chat_id : Z) (source : string) (e : event) : Prop :=
  e = EvYtdl source
  \/ e = EvFfmpeg audio_file_path (raw_name chat_id) voice_format
  \/ exists a, e = EvSetInput a (raw_name chat_id).

(** What is logged after the first [e]. *)
Fixpoint after_first (e : event) (tr : list event) : list event :=
  match tr with
  | [] => []
  | x :: tr' => if decide (x = e) then tr' else after_first e tr'
  end.

(** Is [e2] logged after the first [e1]? *)
Definition logged_before (e1 e2 : event) (tr : list event) : bool :=
  bool_decide (e2 ∈ after_first e1 tr).

(** Does a command take [chat_id] out of the registry? *)
Definition leaves (chat_id : Z) (c : command) : bool :=
  match c with
  | CLeave c' | CLeaveEnd c' => bool_decide (c' = chat_id)
  | _ => false
  end.

(** ** More of the manager and of the client *)

(** As [good_world], but [call.start()] raises. *)
Definition bad_start_world : world :=
  {| factory_ok := fun _ => true;
     start_ok := fun _ _ _ => false;
     stop_ok := fun _ _ => true;
     ytdl_run := fun _ _ _ => YtdlResult ["mp3"; "jpg"] false;
     ffmpeg_run := fun _ _ _ => FfDone;
     playout_ok := fun _ _ _ => true |}.

(** [MusicUserbot.disconnect], its loop over the voice chats:
    [for chat_id in list(self.music.group_calls.keys()):
       await self.music.leave_voice_chat(int(chat_id))].
    The keys are listed once, before the first leave.  The handlers stay
    registered while the loop runs, and a leave that finds its chat awaits
    [stop()]: every key comes with the commands that are handled during
    that wait.  A leave that does not find its chat returns at once. *)
Fixpoint leave_all (w : world) (order : list (Z * list command)) (st : state)
    : state :=
  match order with
  | [] => st
  | (chat_id, during) :: rest =>
      leave_all w rest
        match group_calls st !! chat_id with
        | None => st
        | Some _ =>
            match leave_before_stop w chat_id st with
            | (Ret true, st1) => (leave_after_stop chat_id (run w during st1)).2
            | (_, st1) => run w during st1
            end
        end
  end.

(** Is the command a join? *)
Definition joins (c : command) : bool :=
  match c with
  | CJoin _ => true
  | _ => false
  end.

(** A list of keys of [self.group_calls]: each key once. *)
Definition keys_of (st : state) (order : list Z) : Prop :=
  NoDup order /\ forall c, c ∈ order <-> is_Some (group_calls st !! c).

(** Every call object in the registry that has an [input_filename] has the
    raw file name of its own chat. *)
Definition input_owned (st : state) : Prop :=
  forall c a p,
    group_calls st !! c = Some a ->
    objects st !! a = Some (Call (Some p)) ->
    p = raw_name c.

(** Every raw file on disk belongs to a chat in the registry. *)
Definition no_orphan (st : state) : Prop :=
  forall c, is_Some (fs st !! raw_name c) -> is_Some (group_calls st !! c).

(** What ffmpeg and the transport are ever asked for. *)
Definition per_chat_event (e : event) : Prop :=
  match e with
  | EvFfmpeg _ output f => f = voice_format /\ exists c, output = raw_name c
  | EvSetInput _ p => exists c, p = raw_name c
  | _ => True
  end.

(** Does a path end in [.raw]? *)
Definition ends_raw (p : path) : bool :=
  match rev (String.list_ascii_of_string p) with
  | "w"%char :: "a"%char :: "r"%char :: "."%char :: _ => true
  | _ => false
  end.

(** Commands whose attachment, if any, is not saved under a name that ends
    in [.raw]. *)
Definition plain_attachment (c : command) : Prop :=
  match c with
  | CPlayFile _ f => ends_raw (saved_as f) = false
  | _ => True
  end.

(** ** The settings database (src/core/database.py) *)

Module Database.

(** The values the database holds ([Any]), as far as they are modelled:
    [None], booleans, integers, strings, lists and dictionaries with string
    keys, which [json] writes and reads back as they were, and, as
    [PObject], an object that [json.dump] refuses.  Left out are the values
    that [json.dump] writes and [json.load] gives back as something else
    (tuples, dictionary keys that are not strings), floats, and strings
    that UTF-8 cannot encode. *)
#[warnings="-register-all"]
Inductive pyval :=
| PNone
| PBool (b : bool)
| PInt (z : Z)
| PStr (s : string)
| PList (l : list pyval)
| PDict (d : gmap string pyval)
| PObject (repr : string).

(** Does [json.dump] accept the value?  Of the values of [pyval] it
    refuses those with a [PObject] inside. *)
Fixpoint serialisable (v : pyval) : bool :=
  match v with
  | PList l => forallb serialisable l
  | PDict d => map_fold (fun _ x b => serialisable x && b) true d
  | PObject _ => false
  | _ => true
  end.

(** [if v]: Python's truth value. *)
Definition truthy (v : pyval) : bool :=
  match v with
  | PNone => false
  | PBool b => b
  | PInt z => negb (Z.eqb z 0)
  | PStr s => negb (String.eqb s "")
  | PList l => negb (Nat.eqb (length l) 0)
  | PDict d => negb (Nat.eqb (size d) 0)
  | PObject _ => true
  end.

(** What a file holds: the JSON text of a value, or something [json.load]
    rejects (an empty or cut-off file among others). *)
Inductive file :=
| FJson (v : pyval)
| FGarbage.

Inductive pyexn := TypeError | AttributeError | LibraryFailure.

Inductive outcome (A : Type) :=
| Returns (a : A)
| Raises (e : pyexn).
Arguments Returns {A} a.
Arguments Raises {A} e.

(** A [Database] object, the disk, and the number of file operations made
    so far. *)
Record t := Db {
  _data : pyval;
  disk : gmap string file;
  ticks : nat
}.

(** [key in s] for strings. *)
Fixpoint contains (key s : string) : bool :=
  String.prefix key s ||
  match s with
  | EmptyString => false
  | String _ s' => contains key s'
  end.

Section Database.
(** [self.db_file], and whether the n-th file operation succeeds. *)
Variable db_file : string.
Variable io_ok : nat -> bool.

Definition _load (disk : gmap string file) (ticks : nat) : pyval * nat :=
  match disk !! db_file with
  | Some f =>
      if io_ok ticks then
        match f with
        | FJson v => (v, S ticks)
        | FGarbage => (PDict ∅, S ticks)
        end
      else (PDict ∅, S ticks)
  | None => (PDict ∅, ticks)
  end.

(** [open(..., 'w')] empties the file before [json.dump] writes to it. *)
Definition _save (s : t) : t :=
  if io_ok (ticks s) then
    if serialisable (_data s) && io_ok (S (ticks s)) then
      Db (_data s) (<[db_file := FJson (_data s)]> (disk s)) (S (S (ticks s)))
    else
      Db (_data s) (<[db_file := FGarbage]> (disk s)) (S (S (ticks s)))
  else Db (_data s) (disk s) (S (ticks s)).

Definition __init__ (disk : gmap string file) (ticks : nat) : t :=
  let '(data, ticks') := _load disk ticks in Db data disk ticks'.

Definition get (key : string) (dflt : pyval) (s : t) : outcome pyval :=
  match _data s with
  | PDict d => Returns (default dflt (d !! key))
  | _ => Raises AttributeError
  end.

Definition set (key : string) (value : pyval) (s : t) : outcome unit * t :=
  match _data s with
  | PDict d =>
      (Returns tt, _save (Db (PDict (<[key := value]> d)) (disk s) (ticks s)))
  | _ => (Raises TypeError, s)
  end.

Definition delete (key : string) (s : t) : outcome unit * t :=
  match _data s with
  | PDict d =>
      if bool_decide (is_Some (d !! key)) then
        (Returns tt, _save (Db (PDict (base.delete key d)) (disk s) (ticks s)))
      else (Returns tt, s)
  | PList l =>
      if existsb (fun v => match v with PStr s' => String.eqb key s' | _ => false end) l
      then (Raises TypeError, s) else (Returns tt, s)
  | PStr s' => if contains key s' then (Raises TypeError, s) else (Returns tt, s)
  | _ => (Raises TypeError, s)
  end.

(** [get_setting] and [set_setting] are [get] and [set] again. *)

Definition clear (s : t) : t := _save (Db (PDict ∅) (disk s) (ticks s)).

Definition save_credentials (api_id api_hash : pyval) (s : t)
    : outcome unit * t :=
  match set "api_id" api_id s with
  | (Returns _, s') => set "api_hash" api_hash s'
  | r => r
  end.

(** The calls that change a database. *)
Inductive update :=
| USet (key : string) (value : pyval)
| UDelete (key : string)
| UClear.

Definition apply_update (u : update) (s : t) : t :=
  match u with
  | USet key value => (set key value s).2
  | UDelete key => (delete key s).2
  | UClear => clear s
  end.

Definition apply_updates (us : list update) (s : t) : t :=
  foldl (fun s u => apply_update u s) s us.

(** Does the update store nothing that [json.dump] refuses? *)
Definition plain_update (u : update) : bool :=
  match u with
  | USet _ value => serialisable value
  | _ => true
  end.

Definition get_credentials (s : t) : outcome (option (pyval * pyval)) :=
  match get "api_id" PNone s with
  | Returns api_id =>
      match get "api_hash" PNone s with
      | Returns api_hash =>
          Returns (if truthy api_id && truthy api_hash
                   then Some (api_id, api_hash) else None)
      | Raises e => Raises e
      end
  | Raises e => Raises e
  end.

End Database.
End Database.

(** ** Credentials and login (src/core/client.py) *)

Module MusicUserbot.

(** [self.credentials_file] and [self.session_file], paths relative to the
    working directory. *)
Definition credentials_file : string := "data/credentials.json".
Definition session_file : string := "data/userbot.session".

(** The [TelegramClient] object: the credentials it was made with, and
    whether it is connected. *)
Record tgclient := TgClient {
  api : Database.pyval * Database.pyval;
  connected : bool
}.

(** Requests to Telegram, in the order they are made. *)
Inductive tgcall :=
| Connect
| Disconnect
| IsUserAuthorized
| SendCodeRequest (phone : string)
| SignInCode (code phone_code_hash : string)
| SignInPassword (password : string)
| GetMe.

Inductive sign_in_result := SignedIn | PasswordNeeded | SignInError.

(** [get_me()] returns the account, returns [None], or raises. *)
Inductive get_me_result := MeUser (account : Z) | MeNone | MeError.

(** What Telegram answers, given everything asked before; [None] and
    [false] stand for an exception. *)
Record telegram := Telegram {
  tg_connect : list tgcall -> bool;
  tg_disconnect : list tgcall -> bool;
  tg_authorized : list tgcall -> option bool;
  tg_send_code : list tgcall -> string -> option string;
  tg_sign_in_code : list tgcall -> string -> string -> sign_in_result;
  tg_sign_in_password : list tgcall -> string -> bool;
  tg_get_me : list tgcall -> get_me_result
}.

(** The userbot as far as login goes: the database (with the disk), the
    client, the login state, and the requests made to Telegram. *)
Record t := Userbot {
  database : Database.t;
  client : option tgclient;
  is_authenticated : bool;
  me : option Z;
  pending_code_hash : option string;
  calls : list tgcall
}.

(** The answers of [send_code] and [verify_code]; [Failure] is
    [{'success': False, 'error': str(e)}]. *)
Inductive answer :=
| Success
| Failure
| NoPendingCode
| TwoFactorRequired.

Definition with_database (d : Database.t) (u : t) : t :=
  Userbot d (client u) (is_authenticated u) (me u) (pending_code_hash u) (calls u).
Definition with_client (c : option tgclient) (u : t) : t :=
  Userbot (database u) c (is_authenticated u) (me u) (pending_code_hash u) (calls u).
Definition called (e : tgcall) (u : t) : t :=
  Userbot (database u) (client u) (is_authenticated u) (me u)
          (pending_code_hash u) (calls u ++ [e]).
Definition logged_in (account : option Z) (u : t) : t :=
  Userbot (database u) (client u) true account (pending_code_hash u) (calls u).

Section MusicUserbot.
(** The directory [Path(__file__).parent.parent / "data"] of the database,
    whether the n-th file operation succeeds, whether the [TelegramClient]
    constructor returns, and Telegram. *)
Variable db_dir : string.
Variable io_ok : nat -> bool.
Variable client_ok : Database.pyval -> Database.pyval -> bool.
Variable tg : telegram.

Definition db_file : string := db_dir +:+ "/settings.json".

(** [MusicUserbot()] over the files on disk. *)
Definition __init__ (disk : gmap string Database.file) : t :=
  Userbot (Database.__init__ db_file io_ok disk 0) None false None None [].

Definition has_saved_credentials (u : t) : bool :=
  bool_decide (is_Some (Database.disk (database u) !! credentials_file)).

(** [initialize] logs and raises again whatever it catches. *)
Definition initialize (api_id api_hash : Database.pyval) (u : t)
    : Database.outcome unit * t :=
  match Database.save_credentials db_file io_ok api_id api_hash (database u) with
  | (Database.Returns _, d) =>
      if client_ok api_id api_hash
      then (Database.Returns tt,
            with_client (Some (TgClient (api_id, api_hash) false))
                        (with_database d u))
      else (Database.Raises Database.LibraryFailure, with_database d u)
  | (Database.Raises e, d) => (Database.Raises e, with_database d u)
  end.

Definition auto_initialize (u : t) : bool * t :=
  if negb (has_saved_credentials u) then (false, u)
  else
    match Database.get_credentials (database u) with
    | Database.Returns (Some (api_id, api_hash)) =>
        match initialize api_id api_hash u with
        | (Database.Returns _, u') => (true, u')
        | (Database.Raises _, u') => (false, u')
        end
    | _ => (false, u)
    end.

(** [await self.client.connect()]; without a client the attribute lookup
    raises. *)
Definition connect (u : t) : bool * t :=
  match client u with
  | None => (false, u)
  | Some c =>
      if tg_connect tg (calls u)
      then (true, called Connect (with_client (Some (TgClient (api c) true)) u))
      else (false, called Connect u)
  end.

(** [self.me = await self.client.get_me(); self.is_authenticated = True]
    and then the log line that reads [self.me.first_name], which raises when
    [get_me()] returned [None]; the new [MusicManager] and the handlers are
    left out. *)
Definition finish_login (u : t) : bool * t :=
  match tg_get_me tg (calls u) with
  | MeUser account => (true, logged_in (Some account) (called GetMe u))
  | MeNone => (false, logged_in None (called GetMe u))
  | MeError => (false, called GetMe u)
  end.

Definition start (force_auth : bool) (u : t) : bool * t :=
  match client u with
  | None => (false, u)
  | Some _ =>
      match connect u with
      | (false, u1) => (false, u1)
      | (true, u1) =>
          match tg_authorized tg (calls u1) with
          | None => (false, called IsUserAuthorized u1)
          | Some authorized =>
              if authorized && negb force_auth
              then finish_login (called IsUserAuthorized u1)
              else (false, called IsUserAuthorized u1)
          end
      end
  end.

Definition send_code (phone : string) (u : t) : answer * t :=
  let connected_now :=
    match client u with
    | Some c => if connected c then (true, u) else connect u
    | None => connect u
    end in
  match connected_now with
  | (false, u1) => (Failure, u1)
  | (true, u1) =>
      match tg_send_code tg (calls u1) phone with
      | Some h =>
          (Success,
           Userbot (database u1) (client u1) (is_authenticated u1) (me u1)
                   (Some h) (calls u1 ++ [SendCodeRequest phone]))
      | None => (Failure, called (SendCodeRequest phone) u1)
      end
  end.

(** [if not password]: [None] and the empty string. *)
Definition no_password (password : option string) : bool :=
  match password with
  | Some (String _ _) => false
  | _ => true
  end.

Definition verify_code (code : string) (password : option string) (u : t)
    : answer * t :=
  match pending_code_hash u with
  | Some (String a h) =>
      match client u with
      | None => (Failure, u)
      | Some _ =>
          let u1 := called (SignInCode code (String a h)) u in
          match tg_sign_in_code tg (calls u) code (String a h) with
          | SignedIn =>
              match finish_login u1 with
              | (true, u2) => (Success, u2)
              | (false, u2) => (Failure, u2)
              end
          | PasswordNeeded =>
              if no_password password then (TwoFactorRequired, u1)
              else
                let pw := default "" password in
                let u2 := called (SignInPassword pw) u1 in
                if tg_sign_in_password tg (calls u1) pw then
                  match finish_login u2 with
                  | (true, u3) => (Success, u3)
                  | (false, u3) => (Failure, u3)
                  end
                else (Failure, u2)
          | SignInError => (Failure, u1)
          end
      end
  | _ => (NoPendingCode, u)
  end.

(** [WebServer.api_logout], with [MusicUserbot.disconnect] less its loop
    over the voice chats: the client is disconnected if it is connected, the
    session file removed if it is there, and the login state reset; an
    exception on the way leaves the rest undone. *)
Definition disconnect_client (u : t) : t :=
  match client u with
  | Some c =>
      if connected c then
        if tg_disconnect tg (calls u)
        then called Disconnect (with_client (Some (TgClient (api c) false)) u)
        else called Disconnect u
      else u
  | None => u
  end.

Definition api_logout (u : t) : answer * t :=
  let u1 := disconnect_client u in
  let d := database u1 in
  let removed :=
    match Database.disk d !! session_file with
    | Some _ =>
        if io_ok (Database.ticks d)
        then Some (Database.Db (Database._data d)
                     (delete session_file (Database.disk d))
                     (S (Database.ticks d)))
        else None
    | None => Some d
    end in
  match removed with
  | Some d' =>
      (Success,
       Userbot d' (client u1) false None (pending_code_hash u1) (calls u1))
  | None =>
      (Failure,
       with_database (Database.Db (Database._data d) (Database.disk d)
                        (S (Database.ticks d))) u1)
  end.

(** What the web interface and [run.py] do with a userbot; [OConnect] is
    the [client.connect()] that [api_send_code] and [api_verify_code] make
    first when there is a client and it is not connected. *)
Inductive operation :=
| OConnect
| OInitialize (api_id api_hash : Database.pyval)
| OAutoInitialize
| OStart (force_auth : bool)
| OSendCode (phone : string)
| OVerifyCode (code : string) (password : option string)
| OLogout.

Definition apply (o : operation) (u : t) : t :=
  match o with
  | OConnect =>
      match client u with
      | Some c => if connected c then u else (connect u).2
      | None => u
      end
  | OInitialize api_id api_hash => (initialize api_id api_hash u).2
  | OAutoInitialize => (auto_initialize u).2
  | OStart force_auth => (start force_auth u).2
  | OSendCode phone => (send_code phone u).2
  | OVerifyCode code password => (verify_code code password u).2
  | OLogout => (api_logout u).2
  end.

Definition apply_all (os : list operation) (u : t) : t :=
  foldl (fun u o => apply o u) u os.

End MusicUserbot.
End MusicUserbot.

(** A Telegram that accepts everything, for account 42; with [two_factor]
    it asks for the password first. *)
Definition telegram_ok (two_factor : bool) : MusicUserbot.telegram :=
  {| MusicUserbot.tg_connect := fun _ => true;
     MusicUserbot.tg_disconnect := fun _ => true;
     MusicUserbot.tg_authorized := fun _ => Some true;
     MusicUserbot.tg_send_code := fun _ _ => Some "hash";
     MusicUserbot.tg_sign_in_code := fun _ _ _ =>
       if two_factor then MusicUserbot.PasswordNeeded else MusicUserbot.SignedIn;
     MusicUserbot.tg_sign_in_password := fun _ _ => true;
     MusicUserbot.tg_get_me := fun _ => MusicUserbot.MeUser 42 |}.

(** A userbot that was initialised and has sent a code. *)
Definition waiting_for_code (two_factor : bool) : MusicUserbot.t :=
  MusicUserbot.apply_all "/srv/bot/data" (fun _ => true) (fun _ _ => true)
    (telegram_ok two_factor)
    [MusicUserbot.OInitialize (Database.PInt 5) (Database.PStr "abc");
     MusicUserbot.OSendCode "+100"]
    (MusicUserbot.__init__ "/srv/bot/data" (fun _ => true) ∅).

(** ** Access to the web interface (src/web/server.py) *)

Module WebServer.

(** Header names compare without regard to case. *)
Definition lower_char (a : ascii) : ascii :=
  let n := nat_of_ascii a in
  if (Nat.leb 65 n && Nat.leb n 90)%bool then ascii_of_nat (n + 32) else a.

Fixpoint lower (s : string) : string :=
  match s with
  | EmptyString => EmptyString
  | String a s' => String (lower_char a) (lower s')
  end.

Definition same_name (k1 k2 : string) : bool := String.eqb (lower k1) (lower k2).

(** Headers, in the order they were added. *)
Abbreviation headers := (list (string * string)) (only parsing).

(** [headers.get(key)]: the first value under the name. *)
Fixpoint header_get (key : string) (h : headers) : option string :=
  match h with
  | [] => None
  | (k, v) :: h' => if same_name k key then Some v else header_get key h'
  end.

(** [headers.getall(key)]: every entry under the name. *)
Definition named (key : string) (h : headers) : headers :=
  filter (fun kv => same_name kv.1 key = true) h.

(** [headers[key] = value]: the first entry under the name is replaced
    where it stands and every later one is removed; when there is none, the
    entry is added at the end. *)
Fixpoint header_set (key value : string) (h : headers) : headers :=
  match h with
  | [] => [(key, value)]
  | (k, v) :: h' =>
      if same_name k key
      then (key, value) :: filter (fun kv => same_name kv.1 key = false) h'
      else (k, v) :: header_set key value h'
  end.

(** The names the middleware sets. *)
Definition security_header (k : string) : bool :=
  same_name k "Referrer-Policy" || same_name k "Cache-Control"
  || same_name k "X-Content-Type-Options" || same_name k "X-Frame-Options".

Record request := Request { req_headers : headers }.

Record response := Response {
  status : Z;
  resp_headers : headers;
  body : Database.pyval
}.

(** [web.json_response(data, status=...)] *)
Definition json_response (data : Database.pyval) (st : Z) : response :=
  Response st [("Content-Type", "application/json; charset=utf-8")] data.

(** What a handler does: it returns a response, raises one as an
    [HTTPException], or raises something else. *)
Inductive handled :=
| Responds (r : response)
| RaisesHTTP (r : response)
| RaisesOther.

Section WebServer.
(** [self.auth_secret], and the state the handlers work on. *)
Variable auth_secret : string.
Context {S : Type}.

Definition _check_auth (req : request) : bool :=
  bool_decide (header_get "Authorization" (req_headers req)
               = Some ("Bearer " +:+ auth_secret)).

Definition auth_required : response :=
  json_response
    (Database.PDict
       {[ "success" := Database.PBool false;
          "error" := Database.PStr
            "Authentication required. Provide secret in Authorization header." ]})
    401.

Definition _require_auth (handler : request -> S -> handled * S)
    (req : request) (s : S) : handled * S :=
  if negb (_check_auth req) then (Responds auth_required, s)
  else handler req s.

Definition add_security_headers (r : response) : response :=
  let h := header_set "Referrer-Policy" "no-referrer" (resp_headers r) in
  let h := header_set "Cache-Control"
             "no-store, no-cache, must-revalidate, private" h in
  let h := header_set "X-Content-Type-Options" "nosniff" h in
  let h := header_set "X-Frame-Options" "SAMEORIGIN" h in
  let h := if Z.eqb (status r) 401
           then header_set "Cache-Control" "no-store" h else h in
  Response (status r) h (body r).

Definition _security_headers_middleware
    (handler : request -> S -> handled * S) (req : request) (s : S)
    : handled * S :=
  match handler req s with
  | (Responds r, s') => (Responds (add_security_headers r), s')
  | (RaisesHTTP r, s') => (Responds (add_security_headers r), s')
  | (RaisesOther, s') => (RaisesOther, s')
  end.

End WebServer.

End WebServer.

(** * Verification *)

(** ** The definitions at work *)

Example raw_name_group_chat : raw_name (-1001234567890) = "-1001234567890.raw".
Proof. reflexivity. Qed.

Example glob_matches :
  glob_ytdl_out "data/downloads/ytdl_out.mp3" = true
  /\ glob_ytdl_out "data/downloads/ytdl_out.webm.part" = true
  /\ glob_ytdl_out "data/downloads/ytdl_out.d/x" = false
  /\ glob_ytdl_out "data/downloads/other.mp3" = false
  /\ glob_ytdl_out "100.raw" = false.
Proof. repeat split. Qed.

(** Join, play, leave: the raw file is there while the chat plays and gone
    afterwards, and the transport was stopped once. *)
Example join_play_leave :
  let st := run good_world [CJoin 100; CPlay 100 "https://x/y"] (init_state ∅) in
  let st' := run good_world [CLeave 100] st in
  transport_content st 100 = Some (Converted voice_format (Downloaded "https://x/y"))
  /\ group_calls st' !! 100 = None
  /\ fs st' !! raw_name 100 = None
  /\ trace st' =
       [EvFactory; EvStart 0%nat 100; EvYtdl "https://x/y";
        EvFfmpeg audio_file_path "100.raw" voice_format;
        EvSetInput 0%nat "100.raw"; EvStop 0%nat].
Proof. vm_compute. done. Qed.

(** A stale [ytdl_out.mp3] is on disk and yt-dlp leaves nothing: the stale
    file is not returned, and it is gone. *)
Example stale_download_not_returned :
  let st := init_state {[ audio_file_path := Downloaded "https://x/old" ]} in
  (download_audio no_output_world "https://x/new" st).1 = Ret None
  /\ fs (download_audio no_output_world "https://x/new" st).2 !! audio_file_path = None.
Proof. vm_compute. done. Qed.

(** An attachment is converted and its downloaded copy removed. *)
Example play_attachment :
  let f := ReplyFile (Some "audio/mpeg") "song.mp3" "song" in
  let st := run good_world [CJoin 100; CPlayFile 100 f] (init_state ∅) in
  transport_content st 100 = Some (Converted voice_format (Attachment "song"))
  /\ fs st !! "song.mp3" = None.
Proof. vm_compute. done. Qed.

(** In a group the chat id is negative.  Every engine works, and the play
    fails all the same: ffmpeg does not take [-1001234567890.raw] for a
    file name. *)
Example group_chat_play_fails :
  let st := run good_world [CJoin (-1001234567890)] (init_state ∅) in
  let r := play_audio good_world (-1001234567890) "https://x/y" st in
  play_stage good_world (-1001234567890) "https://x/y" st = TranscodeFailed false
  /\ r.1 = Ret false
  /\ transport_input r.2 (-1001234567890) = None
  /\ fs r.2 !! audio_file_path = Some (Downloaded "https://x/y").
Proof. vm_compute. done. Qed.

(** ** Paths *)

Lemma pretty_N_go_first_char (ch : ascii) x s :
  (forall n, pretty_N_char n ≠ ch) ->
  first_char s ≠ Some ch ->
  first_char (pretty_N_go x s) ≠ Some ch.
Proof.
  intros Hch. revert s. induction (N.lt_wf_0 x) as [x _ IH]; intros s Hs.
  destruct (decide (x = 0%N)) as [->|Hx].
  - by rewrite pretty_N_go_0.
  - rewrite pretty_N_go_step by lia. apply IH.
    + apply N.div_lt; lia.
    + simpl. intros [= E]. by apply (Hch (x `mod` 10)%N).
Qed.

Lemma pretty_N_char_not (ch : ascii) :
  ch = "d"%char \/ ch = "-"%char -> forall n, pretty_N_char n ≠ ch.
Proof. intros [->| ->] n; unfold pretty_N_char; by repeat case_match. Qed.

Lemma pretty_Z_first_char (z : Z) : first_char (pretty z) ≠ Some "d"%char.
Proof.
  destruct z as [|p|p]; simpl; try done.
  unfold pretty, pretty_Z, pretty, pretty_positive, pretty, pretty_N.
  case_decide; [done|].
  apply pretty_N_go_first_char; [apply pretty_N_char_not; by left|done].
Qed.

Lemma pretty_Z_first_char_nonneg (z : Z) :
  0 <= z -> first_char (pretty z) ≠ Some "-"%char.
Proof.
  destruct z as [|p|p]; [done| |lia]. intros _.
  unfold pretty, pretty_Z, pretty, pretty_positive, pretty, pretty_N.
  case_decide; [done|].
  apply pretty_N_go_first_char; [apply pretty_N_char_not; by right|done].
Qed.

(** The raw file of a chat has a name ffmpeg takes for an option exactly when
    the chat id is negative. *)
Lemma raw_name_option_like (chat_id : Z) :
  option_like (raw_name chat_id) = bool_decide (chat_id < 0).
Proof.
  unfold raw_name. case_bool_decide as H.
  - destruct chat_id as [|p|p]; [lia|lia|].
    change (pretty (Z.neg p)) with ("-" +:+ pretty (N.pos p)). simpl.
    by destruct (pretty (N.pos p)).
  - pose proof (pretty_Z_first_char_nonneg chat_id ltac:(lia)) as Hc.
    destruct (pretty chat_id) as [|a s]; [done|]. simpl in *.
    destruct (Ascii.eqb_spec a "-"%char) as [->|Hne]; [done|].
    destruct a as [[] [] [] [] [] [] [] []]; try done.
Qed.

Lemma raw_name_first_char chat_id :
  first_char (raw_name chat_id) ≠ Some "d"%char.
Proof.
  unfold raw_name. pose proof (pretty_Z_first_char chat_id) as H.
  destruct (pretty chat_id); simpl in *; done.
Qed.

Lemma strip_ytdl_stem_first_char s rest :
  strip_prefix ytdl_stem s = Some rest -> first_char s = Some "d"%char.
Proof.
  destruct s as [|a s]; [done|]. unfold ytdl_stem.
  cbn [strip_prefix first_char].
  destruct (Ascii.eqb_spec "d"%char a) as [<-|]; done.
Qed.

Lemma raw_name_not_glob chat_id : glob_ytdl_out (raw_name chat_id) = false.
Proof.
  unfold glob_ytdl_out.
  destruct (strip_prefix ytdl_stem (raw_name chat_id)) eqn:E; [|done].
  apply strip_ytdl_stem_first_char in E.
  by destruct (raw_name_first_char chat_id).
Qed.

Lemma raw_name_not_ytdl_path chat_id ext : raw_name chat_id ≠ ytdl_path ext.
Proof.
  intros E. apply (raw_name_first_char chat_id). by rewrite E.
Qed.

Lemma list_ascii_of_string_app (s1 s2 : string) :
  String.list_ascii_of_string (s1 +:+ s2)
  = String.list_ascii_of_string s1 ++ String.list_ascii_of_string s2.
Proof. induction s1 as [|a s1 IH]; simpl; [done|]. by rewrite IH. Qed.

Lemma string_app_inj_r (s1 s2 t : string) : s1 +:+ t = s2 +:+ t -> s1 = s2.
Proof.
  intros E. apply (f_equal String.list_ascii_of_string) in E.
  rewrite !list_ascii_of_string_app in E. apply app_inv_tail in E.
  rewrite <-(String.string_of_list_ascii_of_string s1).
  rewrite <-(String.string_of_list_ascii_of_string s2). by rewrite E.
Qed.

Lemma raw_name_inj c1 c2 : raw_name c1 = raw_name c2 -> c1 = c2.
Proof. intros E. apply string_app_inj_r in E. by apply (inj pretty). Qed.

Lemma strip_prefix_app pre s : strip_prefix pre (pre +:+ s) = Some s.
Proof.
  induction pre as [|a pre IH]; simpl; [done|].
  by rewrite Ascii.eqb_refl.
Qed.

Lemma glob_ytdl_path ext : glob_ytdl_out (ytdl_path ext) = negb (has_slash ext).
Proof. unfold glob_ytdl_out, ytdl_path. by rewrite strip_prefix_app. Qed.

Lemma strip_prefix_Some pre s rest :
  strip_prefix pre s = Some rest -> s = pre +:+ rest.
Proof.
  revert s. induction pre as [|a pre IH]; intros s; simpl.
  - by intros [= ->].
  - destruct s as [|b s]; [done|].
    destruct (Ascii.eqb_spec a b) as [->|]; [|done].
    intros H. by rewrite (IH _ H).
Qed.

Lemma glob_ytdl_out_inv p :
  glob_ytdl_out p = true -> exists ext, p = ytdl_path ext /\ has_slash ext = false.
Proof.
  unfold glob_ytdl_out.
  destruct (strip_prefix ytdl_stem p) as [rest|] eqn:E; [|done].
  intros H. exists rest. split; [by apply strip_prefix_Some|].
  by destruct (has_slash rest).
Qed.

(** ** Running the monad *)

Ltac unfold_py :=
  unfold in_group_calls, getitem, delitem, setitem, path_exists in *;
  unfold bind, catch, ret, raise, gets, modify in *;
  cbv beta zeta in *.

Lemma bool_decide_is_Some_false {A} (o : option A) :
  o = None -> bool_decide (is_Some o) = false.
Proof.
  intros ->. apply bool_decide_eq_false. by intros [? ?].
Qed.

(** ** Status *)

(** C10: [get_status] changes nothing, and both flags it reports are the
    membership of the chat id in [group_calls]. *)
Theorem get_status_read_only (chat_id : Z) (st : state) :
  exists s,
    get_status chat_id st = (Ret s, st)
    /\ connected s = has_group_call s
    /\ connected s = bool_decide (chat_id ∈ dom (group_calls st))
    /\ status_chat_id s = chat_id.
Proof.
  unfold get_status. unfold_py. eexists. split; [reflexivity|]. simpl.
  repeat split. apply bool_decide_ext. by rewrite elem_of_dom.
Qed.

(** ** Playing before joining *)

(** C5: for a chat id that is not in [group_calls], [play_audio],
    [play_from_file] and the [.play] handler all fail at once: the result is
    [False] (the handler answers that the bot has not joined) and the state,
    the log of engine calls included, is as it was. *)
Theorem play_not_joined (w : world) (chat_id : Z) (st : state) :
  group_calls st !! chat_id = None ->
  (forall source, play_audio w chat_id source st = (Ret false, st))
  /\ (forall file_path, play_from_file w chat_id file_path st = (Ret false, st))
  /\ (forall ev, event_chat_id ev = chat_id ->
        play_handler w ev st = (Ret [respond not_joined_text], st)).
Proof.
  intros Hno. repeat split.
  - intros source. unfold play_audio. unfold_py.
    by rewrite (bool_decide_is_Some_false _ Hno).
  - intros file_path. unfold play_from_file. unfold_py.
    by rewrite (bool_decide_is_Some_false _ Hno).
  - intros ev Hev. unfold play_handler. unfold_py. rewrite Hev.
    by rewrite (bool_decide_is_Some_false _ Hno).
Qed.

Lemma play_not_joined_witness :
  (init_state ∅).(group_calls) !! 200 = None
  /\ play_audio good_world 200 "https://x/y" (init_state ∅)
     = (Ret false, init_state ∅)
  /\ play_handler good_world (PlayEvent 200 "https://x/y" None) (init_state ∅)
     = (Ret [respond not_joined_text], init_state ∅).
Proof.
  assert (H : (init_state ∅).(group_calls) !! 200 = None) by reflexivity.
  split; [exact H|].
  destruct (play_not_joined good_world 200 (init_state ∅) H) as (Ha & _ & Hh).
  split; [apply Ha|]. by apply Hh.
Defined.

(** ** Playout commands *)

Lemma playout_command_spec (w : world) (op : playout_op) (chat_id : Z) (st : state) :
  playout_command w op chat_id st =
    match group_calls st !! chat_id with
    | None => (Ret false, st)
    | Some a => (Ret (playout_ok w (trace st) a op), log (EvPlayout a op) st)
    end.
Proof.
  unfold playout_command, call_playout. unfold_py.
  destruct (group_calls st !! chat_id) as [a|] eqn:E; simpl; rewrite ?E; [|done].
  by destruct (playout_ok w _ a op).
Qed.

(** C6, as the code has it: [replay_audio] looks at [group_calls] only.
    Outside it, the result is [False] and nothing is called; inside it,
    [restart_playout()] is called on the chat's call object whatever its
    [input_filename], and the result is [True] unless that call raises. *)
Theorem replay_audio_spec (w : world) (chat_id : Z) (st : state) :
  replay_audio w chat_id st =
    match group_calls st !! chat_id with
    | None => (Ret false, st)
    | Some a => (Ret (playout_ok w (trace st) a restart_playout),
                 log (EvPlayout a restart_playout) st)
    end.
Proof. apply playout_command_spec. Qed.

(** C6 as claimed fails: a chat that joined and never played has no
    [input_filename] and no raw file, and [replay_audio] neither fails nor
    leaves the transport alone. *)
Lemma replay_without_artifact_counterexample :
  let st := run good_world [CJoin 300] (init_state ∅) in
  transport_input st 300 = None
  /\ fs st !! raw_name 300 = None
  /\ ~ (exists st', replay_audio good_world 300 st = (Ret false, st')
                   /\ trace st' = trace st).
Proof.
  split; [reflexivity|]. split; [reflexivity|].
  intros (st' & H & _). vm_compute in H. discriminate H.
Qed.

(** ** Leaving *)

Lemma leave_voice_chat_eq (w : world) (chat_id : Z) (st : state) :
  leave_voice_chat w chat_id st =
    match group_calls st !! chat_id with
    | None => (Ret false, st)
    | Some a =>
        if stop_ok w (trace st) a then
          (Ret true,
           State (delete chat_id (group_calls st)) (objects st)
                 (delete (raw_name chat_id) (fs st))
                 (trace st ++ [EvStop a]))
        else (Ret false, log (EvStop a) st)
    end.
Proof.
  unfold leave_voice_chat, call_stop, os_remove. unfold_py.
  destruct (group_calls st !! chat_id) as [a|] eqn:E; simpl; rewrite ?E; [|done].
  destruct (stop_ok w (trace st) a); simpl; rewrite ?E; [|done].
  destruct (fs st !! raw_name chat_id) eqn:F; simpl; [done|].
  unfold log, set_group_calls; simpl. by rewrite (delete_id (fs st)).
Qed.


(** ** Fetch *)

Lemma clean_lookup (f : gmap string content) (p : string) :
  unlink_ytdl_out f !! p = if glob_ytdl_out p then None else f !! p.
Proof.
  unfold unlink_ytdl_out.
  destruct (glob_ytdl_out p) eqn:G.
  - apply map_lookup_filter_None. right. intros x _. simpl. by rewrite G.
  - destruct (f !! p) as [x|] eqn:F.
    + by apply map_lookup_filter_Some.
    + apply map_lookup_filter_None. by left.
Qed.

Lemma ytdl_write_lookup source exts (f : gmap string content) (p : string) :
  ytdl_write source exts f !! p
  = if bool_decide (p ∈ ytdl_path <$> exts)
    then Some (Downloaded source) else f !! p.
Proof.
  induction exts as [|e exts IH]; [done|].
  rewrite fmap_cons. cbn [ytdl_write foldr]. fold (ytdl_write source exts f).
  - destruct (decide (ytdl_path e = p)) as [<-|Hne].
    + rewrite lookup_insert_eq. rewrite bool_decide_eq_true_2; [done|]. left.
    + rewrite lookup_insert_ne by done. rewrite IH.
      apply (f_equal (fun b : bool => if b then _ else _)).
      apply bool_decide_ext. rewrite elem_of_cons. split; [by right|].
      by intros [?|?].
Qed.

Lemma ytdl_path_inj e1 e2 : ytdl_path e1 = ytdl_path e2 -> e1 = e2.
Proof. unfold ytdl_path. apply (inj (String.app _)). Qed.

Lemma download_audio_eq (w : world) (source : string) (st : state) :
  download_audio w source st =
    (Ret (if yt_raises (ytdl_answer w source st) then None
          else if bool_decide (is_Some (fs (fetched w source st) !! audio_file_path))
               then Some audio_file_path else None),
     fetched w source st).
Proof.
  unfold download_audio, clean_downloads, extract_info, fetched. unfold_py.
  simpl. destruct (yt_raises _); simpl; [done|].
  by destruct (bool_decide _).
Qed.

Lemma fetched_glob (w : world) source st p :
  glob_ytdl_out p = true ->
  is_Some (fs (fetched w source st) !! p) ->
  exists ext, ext ∈ yt_exts (ytdl_answer w source st) /\ p = ytdl_path ext.
Proof.
  intros G. unfold fetched; simpl. rewrite ytdl_write_lookup.
  case_bool_decide as H.
  - intros _. apply list_elem_of_fmap in H as (ext & -> & H). by exists ext.
  - rewrite clean_lookup, G. by intros [? ?].
Qed.

Lemma fetched_written (w : world) source st ext :
  ext ∈ yt_exts (ytdl_answer w source st) ->
  fs (fetched w source st) !! ytdl_path ext = Some (Downloaded source).
Proof.
  intros H. unfold fetched; simpl. rewrite ytdl_write_lookup.
  rewrite bool_decide_eq_true_2; [done|].
  by apply list_elem_of_fmap_2.
Qed.

Lemma fetched_raw_name (w : world) source st chat_id :
  fs (fetched w source st) !! raw_name chat_id = fs st !! raw_name chat_id.
Proof.
  unfold fetched; simpl. rewrite ytdl_write_lookup.
  rewrite bool_decide_eq_false_2.
  - by rewrite clean_lookup, raw_name_not_glob.
  - intros (ext & E & _)%list_elem_of_fmap.
    by apply raw_name_not_ytdl_path in E.
Qed.

Lemma unlink_ytdl_out_stale (stale f : gmap string content) :
  (forall p, is_Some (stale !! p) -> glob_ytdl_out p = true) ->
  unlink_ytdl_out (stale ∪ f) = unlink_ytdl_out f.
Proof.
  intros Hstale. apply map_eq. intros p. rewrite !clean_lookup.
  destruct (glob_ytdl_out p) eqn:G; [done|].
  destruct (stale !! p) as [x|] eqn:E.
  - assert (glob_ytdl_out p = true) by (apply Hstale; by rewrite E). congruence.
  - by rewrite lookup_union_r.
Qed.

Lemma fetched_stale (w : world) source st (stale : gmap string content) :
  (forall p, is_Some (stale !! p) -> glob_ytdl_out p = true) ->
  fetched w source (set_fs (stale ∪ fs st) st) = fetched w source st.
Proof.
  intros Hstale. unfold fetched; simpl. by rewrite unlink_ytdl_out_stale.
Qed.

(** C8: [download_audio] unlinks every [ytdl_out.*] entry of the downloads
    directory before yt-dlp starts, so that whatever such entries the
    directory held before changes neither the result nor the state after.
    After the call every [ytdl_out.*] entry was written by this run; and a
    path is returned only if this run did not raise and wrote
    [ytdl_out.mp3], which then holds what was downloaded from [source]. *)
Theorem download_audio_clears_stale (w : world) (source : string) (st : state) :
  let start := unlink_ytdl_out (fs st) in
  let r := ytdl_run w (trace st) start source in
  exists o st',
    download_audio w source st = (Ret o, st')
    /\ (forall p, glob_ytdl_out p = true -> start !! p = None)
    /\ (forall stale : gmap path content,
          (forall p, is_Some (stale !! p) -> glob_ytdl_out p = true) ->
          download_audio w source (set_fs (stale ∪ fs st) st) = (Ret o, st'))
    /\ (forall p, glob_ytdl_out p = true -> is_Some (fs st' !! p) ->
          exists ext, ext ∈ yt_exts r /\ p = ytdl_path ext
                      /\ fs st' !! p = Some (Downloaded source))
    /\ (forall p, o = Some p ->
          p = audio_file_path /\ yt_raises r = false /\ "mp3" ∈ yt_exts r
          /\ fs st' !! p = Some (Downloaded source))
    /\ (o = None -> yt_raises r = true \/ "mp3" ∉ yt_exts r).
Proof.
  intros start r. rewrite download_audio_eq. eexists _, _. split; [reflexivity|].
  assert (Hmp3 : is_Some (fs (fetched w source st) !! audio_file_path) ->
                 "mp3" ∈ yt_exts r).
  { intros H. apply fetched_glob in H as (ext & Hext & E); [|done].
    apply ytdl_path_inj in E. by subst ext. }
  split; [|split; [|split; [|split]]].
  - intros p G. unfold start. by rewrite clean_lookup, G.
  - intros stale Hstale. rewrite download_audio_eq. simpl trace.
    rewrite fetched_stale by done. simpl fs.
    by rewrite unlink_ytdl_out_stale.
  - intros p G H. destruct (fetched_glob w source st p G H) as (ext & Hext & ->).
    exists ext. repeat split; [done|]. by apply fetched_written.
  - intros p. fold start r. destruct (yt_raises r); [done|].
    case_bool_decide as H; [|done]. intros [= <-].
    repeat split; [by apply Hmp3|]. by apply (fetched_written w source st "mp3"), Hmp3.
  - fold start r. destruct (yt_raises r); [by left|].
    case_bool_decide as H; [done|]. intros _. right. intros Hin.
    apply H. unfold audio_file_path.
    rewrite (fetched_written w source st "mp3" Hin). by eexists.
Qed.

(** ** Transcode *)

Lemma convert_audio_eq (w : world) (input_file : path) (chat_id : Z) (st : state) :
  let out := raw_name chat_id in
  let f0 := delete out (fs st) in
  convert_audio w input_file chat_id st =
    if option_like out
    then (Raise LibraryError, transcoding input_file chat_id st f0)
    else
      match f0 !! input_file with
      | None => (Raise LibraryError, transcoding input_file chat_id st f0)
      | Some x =>
          match ffmpeg_run w (trace st) input_file x with
          | FfDone =>
              (Ret out,
               transcoding input_file chat_id st
                 (delete input_file (<[out := Converted voice_format x]> f0)))
          | FfError true =>
              (Raise LibraryError,
               transcoding input_file chat_id st (<[out := Truncated voice_format x]> f0))
          | FfError false =>
              (Raise LibraryError, transcoding input_file chat_id st f0)
          end
      end.
Proof.
  intros out f0.
  unfold convert_audio, ffmpeg_convert, os_remove, transcoding. unfold_py.
  fold out. subst f0.
  destruct (fs st !! out) as [old|] eqn:F; simpl; rewrite ?F; simpl;
    (destruct (option_like out);
     [by rewrite ?(delete_id (fs st)) by done|]).
  - destruct (delete out (fs st) !! input_file) as [x|] eqn:I; [|done].
    destruct (ffmpeg_run w (trace st) input_file x) as [|[|]]; simpl; try done.
    destruct (decide (out = input_file)) as [->|Hne].
    + by rewrite lookup_delete_eq in I.
    + rewrite lookup_insert_ne by done. by rewrite I.
  - rewrite (delete_id (fs st)) by done.
    destruct (fs st !! input_file) as [x|] eqn:I; [|done].
    destruct (ffmpeg_run w (trace st) input_file x) as [|[|]]; simpl; try done.
    destruct (decide (out = input_file)) as [->|Hne].
    + congruence.
    + rewrite lookup_insert_ne by done. by rewrite I.
Qed.

(** C7, what [convert_audio] does: it first removes the regular file
    that has the chat's raw name, if there is one, and then asks ffmpeg
    once, for [s16le] / [pcm_s16le] with 2 channels at [48k], to write the
    file of that name.  For a chat id that is not negative, as soon as
    ffmpeg succeeds the file holds the conversion of the input, the input is
    gone, wherever it came from, and the name is returned; when ffmpeg
    fails, the call raises, the input stays, and the name holds nothing or
    the truncated output.  For a negative chat id the name starts with [-]:
    ffmpeg exits at once, the call raises, nothing is written and the input
    stays.  The call also raises when the input does not exist or is the
    chat's own raw file.  No other file, and nothing of the registry, is
    touched. *)
Theorem convert_audio_spec (w : world) (input_file : path) (chat_id : Z) (st : state) :
  let out := raw_name chat_id in
  exists r st',
    convert_audio w input_file chat_id st = (r, st')
    /\ trace st' = trace st ++ [EvFfmpeg input_file out voice_format]
    /\ voice_format = PcmFormat "s16le" "pcm_s16le" 2 "48k"
    /\ (forall c, raw_name c = out -> c = chat_id)
    /\ group_calls st' = group_calls st
    /\ objects st' = objects st
    /\ (forall p, p <> out -> p <> input_file -> fs st' !! p = fs st !! p)
    /\ match delete out (fs st) !! input_file with
       | None =>
           r = Raise LibraryError
           /\ fs st' !! out = None /\ fs st' !! input_file = None
       | Some x =>
           if bool_decide (chat_id < 0) then
             r = Raise LibraryError
             /\ fs st' !! out = None /\ fs st' !! input_file = Some x
           else
             match ffmpeg_run w (trace st) input_file x with
             | FfDone =>
                 r = Ret out
                 /\ fs st' !! out = Some (Converted voice_format x)
                 /\ fs st' !! input_file = None
             | FfError partial_output =>
                 r = Raise LibraryError
                 /\ fs st' !! out =
                      (if partial_output then Some (Truncated voice_format x)
                       else None)
                 /\ fs st' !! input_file = Some x
             end
       end.
Proof.
  intros out. rewrite convert_audio_eq. cbv zeta.
  rewrite (raw_name_option_like chat_id). fold out.
  assert (Hframe : forall (f : gmap path content) p,
            p <> out -> delete out f !! p = f !! p).
  { intros f p Hp. by rewrite lookup_delete_ne. }
  destruct (delete out (fs st) !! input_file) as [x|] eqn:I.
  - assert (Hne : out <> input_file).
    { intros ->. by rewrite lookup_delete_eq in I. }
    case_bool_decide as Hneg.
    { eexists _, _. split; [reflexivity|]. simpl.
      split; [done|]. split; [done|]. split; [intros c; apply raw_name_inj|].
      split; [done|]. split; [done|].
      split; [intros p Hp _; by apply Hframe|].
      split; [done|]. split; [apply lookup_delete_eq|done]. }
    destruct (ffmpeg_run w (trace st) input_file x) as [|[|]];
      eexists _, _; (split; [reflexivity|]); simpl;
      (split; [done|]); (split; [done|]); (split; [intros c; apply raw_name_inj|]);
      (split; [done|]); (split; [done|]).
    + split.
      * intros p Hp Hi. rewrite lookup_delete_ne, lookup_insert_ne by done.
        by apply Hframe.
      * split; [done|]. split; [|apply lookup_delete_eq].
        rewrite lookup_delete_ne by done. apply lookup_insert_eq.
    + split.
      * intros p Hp Hi. rewrite lookup_insert_ne by done. by apply Hframe.
      * split; [done|]. split; [apply lookup_insert_eq|].
        by rewrite lookup_insert_ne.
    + split; [intros p Hp _; by apply Hframe|].
      split; [done|]. split; [apply lookup_delete_eq|done].
  - exists (Raise LibraryError), (transcoding input_file chat_id st (delete out (fs st))).
    split; [by destruct (bool_decide _)|]. simpl.
    split; [done|]. split; [done|]. split; [intros c; apply raw_name_inj|].
    split; [done|]. split; [done|].
    split; [intros p Hp _; by apply Hframe|].
    split; [done|]. split; [apply lookup_delete_eq|done].
Qed.

(** C7 fails for the chats the bot plays in: a group, a supergroup or a
    channel has a negative chat id.  The file was downloaded and ffmpeg
    would convert it, but the output name starts with [-]: the call raises,
    no raw file is written and the download is left where it was. *)
Lemma convert_audio_group_chat_counterexample :
  let st := init_state {[ audio_file_path := Downloaded "https://x/y" ]} in
  let r := convert_audio good_world audio_file_path (-1001234567890) st in
  raw_name (-1001234567890) = "-1001234567890.raw"
  /\ r.1 = Raise LibraryError
  /\ fs r.2 !! "-1001234567890.raw" = None
  /\ fs r.2 !! audio_file_path = Some (Downloaded "https://x/y")
  /\ trace r.2 = [EvFfmpeg audio_file_path "-1001234567890.raw" voice_format].
Proof. vm_compute. done. Qed.

(** ** The play pipeline *)

Lemma convert_audio_group_calls (w : world) input_file chat_id st :
  group_calls (convert_audio w input_file chat_id st).2 = group_calls st.
Proof.
  rewrite convert_audio_eq. destruct (option_like _); [done|].
  destruct (delete _ _ !! input_file) as [x|]; [|done].
  by destruct (ffmpeg_run w (trace st) input_file x) as [|[|]].
Qed.

Lemma convert_audio_objects (w : world) input_file chat_id st :
  objects (convert_audio w input_file chat_id st).2 = objects st.
Proof.
  rewrite convert_audio_eq. destruct (option_like _); [done|].
  destruct (delete _ _ !! input_file) as [x|]; [|done].
  by destruct (ffmpeg_run w (trace st) input_file x) as [|[|]].
Qed.

Lemma play_audio_eq (w : world) (chat_id : Z) (source : string) (st : state) :
  play_audio w chat_id source st =
    match group_calls st !! chat_id with
    | None => (Ret false, st)
    | Some a =>
        let st1 := fetched w source st in
        if yt_raises (ytdl_answer w source st)
        then (Ret false, st1)
        else if bool_decide (is_Some (fs st1 !! audio_file_path)) then
          match convert_audio w audio_file_path chat_id st1 with
          | (Ret raw_file, st2) => (Ret true, install a raw_file st2)
          | (Raise _, st2) => (Ret false, st2)
          end
        else (Ret false, st1)
    end.
Proof.
  unfold play_audio, set_input_filename, install. unfold_py.
  destruct (group_calls st !! chat_id) as [a|] eqn:E; simpl; [|done].
  rewrite download_audio_eq.
  destruct (yt_raises _); simpl; [done|].
  destruct (bool_decide _); simpl; [|done].
  pose proof (convert_audio_group_calls w audio_file_path chat_id
                (fetched w source st)) as Hg.
  destruct (convert_audio w audio_file_path chat_id (fetched w source st))
    as [[raw_file|e] st2]; simpl in *; [|done].
  by rewrite Hg, E.
Qed.

Lemma play_from_file_eq (w : world) (chat_id : Z) (file_path : path) (st : state) :
  play_from_file w chat_id file_path st =
    match group_calls st !! chat_id with
    | None => (Ret false, st)
    | Some a =>
        match convert_audio w file_path chat_id st with
        | (Ret raw_file, st2) => (Ret true, install a raw_file st2)
        | (Raise _, st2) => (Ret false, st2)
        end
    end.
Proof.
  unfold play_from_file, set_input_filename, install. unfold_py.
  destruct (group_calls st !! chat_id) as [a|] eqn:E; simpl; [|done].
  pose proof (convert_audio_group_calls w file_path chat_id st) as Hg.
  destruct (convert_audio w file_path chat_id st)
    as [[raw_file|e] st2]; simpl in *; [|done].
  by rewrite Hg, E.
Qed.

Lemma fetched_audio_file (w : world) source st :
  bool_decide (is_Some (fs (fetched w source st) !! audio_file_path))
  = bool_decide ("mp3" ∈ yt_exts (ytdl_answer w source st)).
Proof.
  apply bool_decide_ext. split.
  - intros H. apply fetched_glob in H as (ext & Hext & E); [|done].
    apply ytdl_path_inj in E. by subst ext.
  - intros H. unfold audio_file_path. rewrite (fetched_written _ _ _ _ H).
    by eexists.
Qed.

Lemma play_audio_stage (w : world) (chat_id : Z) (source : string) (st : state) :
  let out := raw_name chat_id in
  let st1 := fetched w source st in
  let f0 := delete out (fs st1) in
  match play_stage w chat_id source st with
  | NotJoined => play_audio w chat_id source st = (Ret false, st)
  | FetchFailed => play_audio w chat_id source st = (Ret false, st1)
  | TranscodeFailed b =>
      play_audio w chat_id source st =
        (Ret false,
         transcoding audio_file_path chat_id st1
           (if b then <[out := Truncated voice_format (Downloaded source)]> f0
            else f0))
  | Played =>
      exists a, group_calls st !! chat_id = Some a
        /\ play_audio w chat_id source st =
             (Ret true,
              install a out
                (transcoding audio_file_path chat_id st1
                   (delete audio_file_path
                      (<[out := Converted voice_format (Downloaded source)]> f0))))
  end.
Proof.
  intros out st1 f0.
  assert (Heq := play_audio_eq w chat_id source st).
  unfold play_stage.
  destruct (group_calls st !! chat_id) as [a|] eqn:E; [|done].
  cbv zeta in Heq. rewrite fetched_audio_file in Heq. fold st1 in Heq.
  cbv zeta.
  destruct (yt_raises _) eqn:Hr; cbn [orb]; [done|].
  case_bool_decide as Hmp3; cbn [negb]; [|done].
  rewrite convert_audio_eq in Heq. fold out f0 in Heq. fold out.
  destruct (option_like out); [done|].
  assert (I : f0 !! audio_file_path = Some (Downloaded source)).
  { unfold f0. rewrite lookup_delete_ne by apply raw_name_not_ytdl_path.
    by apply (fetched_written w source st "mp3"). }
  rewrite I in Heq. change (trace st1) with (trace st ++ [EvYtdl source]) in Heq.
  destruct (ffmpeg_run w _ audio_file_path (Downloaded source)) as [|[|]];
    try done.
  by exists a.
Qed.

Lemma transport_input_install (a : addr) (raw_file : path) (st : state) chat_id :
  group_calls st !! chat_id = Some a ->
  transport_input (install a raw_file st) chat_id = Some raw_file.
Proof.
  intros E. unfold transport_input, install; simpl. rewrite E; simpl.
  by rewrite lookup_insert_eq.
Qed.

(** A run that gets to the end: the per-chat file holds the conversion of
    what was downloaded from [source], and the chat's call object plays
    from it. *)
Lemma play_audio_played (w : world) (chat_id : Z) (source : string) (st : state) :
  play_stage w chat_id source st = Played ->
  exists a st',
    group_calls st !! chat_id = Some a
    /\ play_audio w chat_id source st = (Ret true, st')
    /\ group_calls st' = group_calls st
    /\ objects st' = <[a := Call (Some (raw_name chat_id))]> (objects st)
    /\ fs st' !! raw_name chat_id = Some (Converted voice_format (Downloaded source))
    /\ transport_input st' chat_id = Some (raw_name chat_id)
    /\ trace st' = trace st ++
         [EvYtdl source;
          EvFfmpeg audio_file_path (raw_name chat_id) voice_format;
          EvSetInput a (raw_name chat_id)].
Proof.
  intros Hs. pose proof (play_audio_stage w chat_id source st) as H.
  rewrite Hs in H. destruct H as (a & E & H).
  eexists a, _. split; [done|]. split; [exact H|]. simpl.
  split; [done|]. split; [done|]. split; [|split].
  - rewrite lookup_delete_ne by (apply not_eq_sym, raw_name_not_ytdl_path).
    apply lookup_insert_eq.
  - by apply transport_input_install.
  - by rewrite <-!app_assoc.
Qed.

Lemma play_audio_result (w : world) (chat_id : Z) (source : string) (st : state) :
  exists b st',
    play_audio w chat_id source st = (Ret b, st')
    /\ (b = true <-> play_stage w chat_id source st = Played).
Proof.
  pose proof (play_audio_stage w chat_id source st) as H.
  destruct (play_stage w chat_id source st) as [| |b|];
    [eexists false, _; by rewrite H..|].
  destruct H as (a & _ & ->). by eexists true, _.
Qed.

(** C4, as the code has it: [play_audio] never raises.  When it returns
    [False], [group_calls] and every call object are as before and nothing
    was handed to the transport.  If the chat had not joined, nothing was
    called at all; if the download failed, ffmpeg was not run and the
    chat's raw file is as before; if ffmpeg failed, the raw file the chat
    had was removed before the conversion, and its name now holds nothing or
    the truncated output of the failed run. *)
Theorem play_audio_failure (w : world) (chat_id : Z) (source : string) (st : state) :
  exists b st',
    play_audio w chat_id source st = (Ret b, st')
    /\ (b = true <-> play_stage w chat_id source st = Played)
    /\ (b = false ->
        group_calls st' = group_calls st /\ objects st' = objects st
        /\ match play_stage w chat_id source st with
           | NotJoined => st' = st
           | FetchFailed =>
               trace st' = trace st ++ [EvYtdl source]
               /\ fs st' !! raw_name chat_id = fs st !! raw_name chat_id
           | TranscodeFailed partial_output =>
               trace st' = trace st ++
                 [EvYtdl source;
                  EvFfmpeg audio_file_path (raw_name chat_id) voice_format]
               /\ fs st' !! raw_name chat_id =
                    (if partial_output
                     then Some (Truncated voice_format (Downloaded source))
                     else None)
           | Played => False
           end).
Proof.
  pose proof (play_audio_stage w chat_id source st) as H.
  destruct (play_stage w chat_id source st) as [| |b|] eqn:Hs.
  - exists false, st. by rewrite H.
  - eexists false, _. rewrite H. split; [done|]. split; [done|]. intros _.
    split; [done|]. split; [done|]. split; [done|]. apply fetched_raw_name.
  - eexists false, _. rewrite H. split; [done|]. split; [done|]. intros _.
    split; [done|]. split; [done|]. simpl. split; [by rewrite <-app_assoc|].
    destruct b; [apply lookup_insert_eq|apply lookup_delete_eq].
  - destruct H as (a & _ & ->). eexists true, _. done.
Qed.

(** C4 as claimed fails in the Transcode stage: the chat plays a first
    source, then ffmpeg fails on a second one.  The raw file the transport
    was given is no longer what it was: its name holds the truncated output
    of the failed run, and the call object still plays from that name. *)
Lemma play_transcode_failure_counterexample :
  let w := bad_ffmpeg_world "https://x/bad" true in
  let st := run w [CJoin 100; CPlay 100 "https://x/good"] (init_state ∅) in
  let st' := (play_audio w 100 "https://x/bad" st).2 in
  (play_audio w 100 "https://x/bad" st).1 = Ret false
  /\ transport_input st' 100 = Some (raw_name 100)
  /\ ~ (fs st' !! raw_name 100 = fs st !! raw_name 100)
  /\ ~ (forall c, transport_content st' 100 <> Some (Truncated voice_format c)).
Proof.
  intros w st st'. split; [by vm_compute|]. split; [by vm_compute|]. split.
  - intros H. vm_compute in H. discriminate H.
  - intros H. apply (H (Downloaded "https://x/bad")). by vm_compute.
Qed.

(** ** The registry *)

Lemma _get_call_eq (w : world) (chat_id : Z) (st : state) :
  _get_call w chat_id st =
    match group_calls st !! chat_id with
    | Some a => (Ret a, st)
    | None =>
        if factory_ok w (trace st)
        then (Ret (fresh (dom (objects st))), created chat_id st)
        else (Raise LibraryError, log EvFactory st)
    end.
Proof.
  unfold _get_call, get_file_group_call, created.
  change (negb PYTGCALLS_AVAILABLE) with false. cbv iota. unfold_py.
  destruct (group_calls st !! chat_id) as [a|] eqn:E; simpl; rewrite ?E; [done|].
  destruct (factory_ok w (trace st)); simpl; [|done].
  by rewrite lookup_insert_eq.
Qed.

Lemma join_voice_chat_eq (w : world) (chat_id : Z) (st : state) :
  join_voice_chat w chat_id st =
    match _get_call w chat_id st with
    | (Ret a, st') => (Ret (start_ok w (trace st') a chat_id),
                       log (EvStart a chat_id) st')
    | (Raise _, st') => (Ret false, st')
    end.
Proof.
  unfold join_voice_chat, call_start.
  pose proof (_get_call_eq w chat_id st) as H.
  unfold catch at 1, bind at 1. 
  destruct (_get_call w chat_id st) as [[a|e] st'] eqn:G; [|done].
  assert (E : group_calls st' !! chat_id = Some a).
  { destruct (group_calls st !! chat_id) as [a'|] eqn:E; [by simplify_eq|].
    destruct (factory_ok w (trace st)); simplify_eq. simpl.
    apply lookup_insert_eq. }
  unfold_py. rewrite E. by destruct (start_ok w (trace st') a chat_id).
Qed.

Lemma registry_ok_init files : registry_ok (init_state files).
Proof. split; intros *; simpl; by rewrite lookup_empty. Qed.

Lemma registry_ok_created chat_id st :
  registry_ok st -> registry_ok (created chat_id st).
Proof.
  intros [Hdom Hinj]. unfold created.
  pose proof (is_fresh (dom (objects st))) as Hfresh.
  split; simpl.
  - intros c a. rewrite dom_insert_L. destruct (decide (chat_id = c)) as [->|Hne].
    + rewrite lookup_insert_eq. intros [= <-]. set_solver.
    + rewrite lookup_insert_ne by done. intros H. apply Hdom in H. set_solver.
  - intros c1 c2 a.
    destruct (decide (chat_id = c1)) as [E1|H1];
      destruct (decide (chat_id = c2)) as [E2|H2]; subst; [done|..].
    + rewrite lookup_insert_eq, lookup_insert_ne by done.
      intros [= <-] H. by apply Hdom in H.
    + rewrite lookup_insert_eq, lookup_insert_ne by done.
      intros H [= <-]. by apply Hdom in H.
    + rewrite !lookup_insert_ne by done. apply Hinj.
Qed.

Lemma registry_ok_ext st st' :
  group_calls st' = group_calls st ->
  dom (objects st) ⊆ dom (objects st') ->
  registry_ok st -> registry_ok st'.
Proof.
  intros Hg Hd [Hdom Hinj]. split; rewrite Hg.
  - intros c a H. apply Hd. by eapply Hdom.
  - done.
Qed.

Lemma registry_ok_delete chat_id st st' :
  group_calls st' = delete chat_id (group_calls st) ->
  objects st' = objects st ->
  registry_ok st -> registry_ok st'.
Proof.
  intros Hg Ho [Hdom Hinj]. split; rewrite Hg, ?Ho.
  - intros c a [_ H]%lookup_delete_Some. by eapply Hdom.
  - intros c1 c2 a [_ H1]%lookup_delete_Some [_ H2]%lookup_delete_Some.
    by eapply Hinj.
Qed.

Lemma leave_after_stop_eq (chat_id : Z) (st : state) :
  leave_after_stop chat_id st =
    match group_calls st !! chat_id with
    | None => (Ret false, st)
    | Some _ =>
        (Ret true,
         State (delete chat_id (group_calls st)) (objects st)
               (delete (raw_name chat_id) (fs st)) (trace st))
    end.
Proof.
  unfold leave_after_stop, os_remove. unfold_py.
  destruct (group_calls st !! chat_id) as [a|] eqn:E; simpl; [|done].
  destruct (fs st !! raw_name chat_id) eqn:F; simpl; [done|].
  unfold set_group_calls; simpl. by rewrite (delete_id (fs st)).
Qed.

Lemma leave_before_stop_eq (w : world) (chat_id : Z) (st : state) :
  leave_before_stop w chat_id st =
    match group_calls st !! chat_id with
    | None => (Ret false, st)
    | Some a => (Ret (stop_ok w (trace st) a), log (EvStop a) st)
    end.
Proof.
  unfold leave_before_stop, call_stop. unfold_py.
  destruct (group_calls st !! chat_id) as [a|] eqn:E; simpl; rewrite ?E; [|done].
  by destruct (stop_ok w (trace st) a).
Qed.

Lemma play_audio_registry (w : world) chat_id source st :
  group_calls (play_audio w chat_id source st).2 = group_calls st
  /\ dom (objects st) ⊆ dom (objects (play_audio w chat_id source st).2).
Proof.
  rewrite play_audio_eq.
  destruct (group_calls st !! chat_id) as [a|]; [|done]. cbv zeta.
  destruct (yt_raises _); [done|]. destruct (bool_decide _); [|done].
  pose proof (convert_audio_group_calls w audio_file_path chat_id
                (fetched w source st)) as Hg.
  pose proof (convert_audio_objects w audio_file_path chat_id
                (fetched w source st)) as Ho.
  destruct (convert_audio _ _ _ _) as [[raw_file|e] st2]; simpl in *.
  - rewrite Hg, Ho, dom_insert_L. split; [done|set_solver].
  - by rewrite Hg, Ho.
Qed.

Lemma play_from_file_registry (w : world) chat_id file_path st :
  group_calls (play_from_file w chat_id file_path st).2 = group_calls st
  /\ dom (objects st) ⊆ dom (objects (play_from_file w chat_id file_path st).2).
Proof.
  rewrite play_from_file_eq.
  destruct (group_calls st !! chat_id) as [a|]; [|done].
  pose proof (convert_audio_group_calls w file_path chat_id st) as Hg.
  pose proof (convert_audio_objects w file_path chat_id st) as Ho.
  destruct (convert_audio _ _ _ _) as [[raw_file|e] st2]; simpl in *.
  - rewrite Hg, Ho, dom_insert_L. split; [done|set_solver].
  - by rewrite Hg, Ho.
Qed.

(** What a command can do to the registry: nothing, remove the chat it
    leaves, or add a new object for a chat that had none. *)
Lemma exec_registry (w : world) (c : command) (st : state) :
  let st' := exec w c st in
  (group_calls st' = group_calls st /\ dom (objects st) ⊆ dom (objects st'))
  \/ (exists chat_id, leaves chat_id c = true
        /\ group_calls st' = delete chat_id (group_calls st)
        /\ objects st' = objects st)
  \/ (exists chat_id, group_calls st !! chat_id = None
        /\ group_calls st' = group_calls (created chat_id st)
        /\ objects st' = objects (created chat_id st)).
Proof.
  destruct c as [c|c|c|c|c source|c f|op c|c]; simpl.
  - rewrite join_voice_chat_eq, _get_call_eq.
    destruct (group_calls st !! c) as [a|] eqn:E; [by left|].
    destruct (factory_ok w (trace st)); [|by left].
    right; right. by exists c.
  - rewrite leave_voice_chat_eq.
    destruct (group_calls st !! c) as [a|] eqn:E; [|by left].
    destruct (stop_ok w (trace st) a); [|by left].
    right; left. exists c. by rewrite bool_decide_eq_true_2.
  - rewrite leave_before_stop_eq.
    destruct (group_calls st !! c) as [a|] eqn:E; by left.
  - rewrite leave_after_stop_eq.
    destruct (group_calls st !! c) as [a|] eqn:E; [|by left].
    right; left. exists c. by rewrite bool_decide_eq_true_2.
  - left. apply play_audio_registry.
  - left. unfold bind, download_media.
    match goal with
    | |- context [play_from_file w c ?p ?s] =>
        pose proof (play_from_file_registry w c p s) as [Hg Ho];
        destruct (play_from_file w c p s) as [r st2]
    end. simpl in *. by destruct r.
  - left. rewrite playout_command_spec.
    by destruct (group_calls st !! c).
  - by left.
Qed.

Lemma exec_registry_ok (w : world) (c : command) (st : state) :
  registry_ok st -> registry_ok (exec w c st).
Proof.
  intros Hok.
  destruct (exec_registry w c st) as [[Hg Ho]|[(x & _ & Hg & Ho)|(x & _ & Hg & Ho)]].
  - by eapply registry_ok_ext.
  - by eapply registry_ok_delete.
  - apply (registry_ok_created x) in Hok. destruct Hok as [Hdom Hinj].
    split; rewrite Hg, ?Ho; done.
Qed.

Lemma run_registry_ok (w : world) (cs : list command) (st : state) :
  registry_ok st -> registry_ok (run w cs st).
Proof.
  revert st. induction cs as [|c cs IH]; intros st Hok; [done|].
  simpl. apply IH. by apply exec_registry_ok.
Qed.

Lemma exec_keeps_call (w : world) (c : command) (st : state) chat_id a :
  leaves chat_id c = false ->
  group_calls st !! chat_id = Some a ->
  group_calls (exec w c st) !! chat_id = Some a.
Proof.
  intros Hl E.
  destruct (exec_registry w c st) as [[Hg _]|[(x & Hx & Hg & _)|(x & Hx & Hg & _)]];
    rewrite Hg.
  - done.
  - rewrite lookup_delete_ne; [done|]. intros ->. congruence.
  - simpl. rewrite lookup_insert_ne; [done|]. intros ->. congruence.
Qed.

Lemma run_keeps_call (w : world) (cs : list command) (st : state) chat_id a :
  forallb (fun c => negb (leaves chat_id c)) cs = true ->
  group_calls st !! chat_id = Some a ->
  group_calls (run w cs st) !! chat_id = Some a.
Proof.
  revert st. induction cs as [|c cs IH]; intros st Hl E; [done|].
  simpl in Hl. apply andb_true_iff in Hl as [Hc Hl]. simpl. apply IH; [done|].
  apply exec_keeps_call; [|done]. by destruct (leaves chat_id c).
Qed.

(** C9: [_get_call] creates an object only for a chat id that has none, and
    the object is new; for a chat id that has one it returns that object and
    changes nothing.  Whatever commands follow, as long as none of them
    leaves the chat, a second [_get_call] returns the same object, and no
    other chat id ever holds it. *)
Theorem get_call_same_object (w : world) (chat_id : Z) (cs : list command)
    (st st1 : state) (a : addr) :
  _get_call w chat_id st = (Ret a, st1) ->
  forallb (fun c => negb (leaves chat_id c)) cs = true ->
  (forall a0, group_calls st !! chat_id = Some a0 -> a = a0 /\ st1 = st)
  /\ (group_calls st !! chat_id = None ->
        (a ∉ dom (objects st)) /\ st1 = created chat_id st)
  /\ _get_call w chat_id (run w cs st1) = (Ret a, run w cs st1)
  /\ (registry_ok st ->
        forall c, group_calls (run w cs st1) !! c = Some a -> c = chat_id).
Proof.
  intros Hget Hcs. rewrite _get_call_eq in Hget.
  assert (E1 : group_calls st1 !! chat_id = Some a).
  { destruct (group_calls st !! chat_id) as [a0|] eqn:E; [by simplify_eq|].
    destruct (factory_ok w (trace st)); simplify_eq. apply lookup_insert_eq. }
  assert (Hrun := run_keeps_call w cs st1 chat_id a Hcs E1).
  split; [|split; [|split]].
  - intros a0 E. rewrite E in Hget. by simplify_eq.
  - intros E. rewrite E in Hget.
    destruct (factory_ok w (trace st)); simplify_eq.
    split; [apply is_fresh|done].
  - by rewrite _get_call_eq, Hrun.
  - intros Hok c Hc.
    assert (Hok1 : registry_ok st1).
    { destruct (group_calls st !! chat_id) as [a0|] eqn:E; [by simplify_eq|].
      destruct (factory_ok w (trace st)); simplify_eq.
      by apply registry_ok_created. }
    apply (run_registry_ok w cs) in Hok1 as [_ Hinj]. by eapply Hinj.
Qed.

Lemma get_call_same_object_witness :
  let cs := [CPlay 100 "https://x/y"; CLeave 200; CJoin 200;
             CPlayout pause_playout 100] in
  _get_call good_world 100 (init_state ∅) = (Ret 0%nat, created 100 (init_state ∅))
  /\ forallb (fun c => negb (leaves 100 c)) cs = true
  /\ _get_call good_world 100 (run good_world cs (created 100 (init_state ∅)))
     = (Ret 0%nat, run good_world cs (created 100 (init_state ∅))).
Proof.
  intros cs.
  assert (H : _get_call good_world 100 (init_state ∅)
              = (Ret 0%nat, created 100 (init_state ∅))) by reflexivity.
  assert (Hcs : forallb (fun c => negb (leaves 100 c)) cs = true) by reflexivity.
  split; [exact H|]. split; [exact Hcs|].
  apply (get_call_same_object good_world 100 cs _ _ _ H Hcs).
Defined.

(** ** Two plays *)

Lemma play_audio_fs_other (w : world) (c c' : Z) (source : string) (st : state) :
  c' <> c ->
  fs (play_audio w c source st).2 !! raw_name c' = fs st !! raw_name c'.
Proof.
  intros Hne.
  assert (Hout : raw_name c <> raw_name c') by (by intros ?%raw_name_inj).
  pose proof (play_audio_stage w c source st) as H.
  destruct (play_stage w c source st) as [| |b|].
  - by rewrite H.
  - rewrite H. apply fetched_raw_name.
  - rewrite H. simpl. destruct b.
    + rewrite lookup_insert_ne, lookup_delete_ne by done. apply fetched_raw_name.
    + rewrite lookup_delete_ne by done. apply fetched_raw_name.
  - destruct H as (a & _ & ->). simpl.
    rewrite lookup_delete_ne by (apply not_eq_sym, raw_name_not_ytdl_path).
    rewrite lookup_insert_ne, lookup_delete_ne by done. apply fetched_raw_name.
Qed.

Lemma play_audio_input_other (w : world) (c c' : Z) (source : string) (st : state) :
  c' <> c -> registry_ok st ->
  transport_input (play_audio w c source st).2 c' = transport_input st c'.
Proof.
  intros Hne [_ Hinj].
  pose proof (play_audio_stage w c source st) as H.
  destruct (play_stage w c source st) as [| |b|].
  - by rewrite H.
  - by rewrite H.
  - by rewrite H.
  - destruct H as (a & E & ->). unfold transport_input, install; simpl.
    destruct (group_calls st !! c') as [a'|] eqn:E'; simpl; [|done].
    rewrite lookup_insert_ne; [done|]. intros ->. apply Hne. by eapply Hinj.
Qed.

(** C1, as the code has it: [play_audio] has no in-flight mark and cancels
    nothing, and it gives way to no other handler between its membership
    test and the hand-off; so of two plays for one chat the second starts
    when the first has ended.  When both get to the end, the first run's
    artifact is installed on the transport after the first, and the second
    puts its own conversion under the same name and installs that. *)
Theorem play_audio_twice (w : world) (chat_id : Z) (s1 s2 : string) (st : state) :
  let st1 := exec w (CPlay chat_id s1) st in
  let st2 := exec w (CPlay chat_id s2) st1 in
  play_stage w chat_id s1 st = Played ->
  play_stage w chat_id s2 st1 = Played ->
  exists a,
    group_calls st !! chat_id = Some a
    /\ transport_content st1 chat_id = Some (Converted voice_format (Downloaded s1))
    /\ transport_content st2 chat_id = Some (Converted voice_format (Downloaded s2))
    /\ trace st2 = trace st ++
         [EvYtdl s1; EvFfmpeg audio_file_path (raw_name chat_id) voice_format;
          EvSetInput a (raw_name chat_id);
          EvYtdl s2; EvFfmpeg audio_file_path (raw_name chat_id) voice_format;
          EvSetInput a (raw_name chat_id)].
Proof.
  intros st1 st2 H1 H2. subst st2 st1. simpl in *.
  destruct (play_audio_played w chat_id s1 st H1)
    as (a & st1' & E & Hp1 & Hg1 & _ & Hf1 & Hi1 & Ht1).
  rewrite Hp1 in *. simpl in *.
  destruct (play_audio_played w chat_id s2 st1' H2)
    as (a' & st2' & E' & Hp2 & _ & _ & Hf2 & Hi2 & Ht2).
  rewrite Hp2. simpl. rewrite Hg1, E in E'. simplify_eq.
  exists a'. split; [done|]. unfold transport_content.
  rewrite Hi1, Hi2; simpl. split; [done|]. split; [done|].
  by rewrite Ht2, Ht1, <-app_assoc.
Qed.

Lemma play_audio_twice_witness :
  let st := run good_world [CJoin 100] (init_state ∅) in
  let st1 := exec good_world (CPlay 100 "https://x/1") st in
  let st2 := exec good_world (CPlay 100 "https://x/2") st1 in
  play_stage good_world 100 "https://x/1" st = Played
  /\ play_stage good_world 100 "https://x/2" st1 = Played
  /\ transport_content st1 100 = Some (Converted voice_format (Downloaded "https://x/1"))
  /\ transport_content st2 100 = Some (Converted voice_format (Downloaded "https://x/2")).
Proof.
  intros st st1 st2.
  assert (H1 : play_stage good_world 100 "https://x/1" st = Played) by reflexivity.
  assert (H2 : play_stage good_world 100 "https://x/2" st1 = Played) by reflexivity.
  split; [exact H1|]. split; [exact H2|].
  destruct (play_audio_twice good_world 100 "https://x/1" "https://x/2" st H1 H2)
    as (a & _ & Hc1 & Hc2 & _).
  split; [exact Hc1|exact Hc2].
Defined.

(** C1 as claimed fails: a chat plays a first source and then a second one.
    Nothing cancels the first run: among the states the two commands go
    through there is one in which the transport plays the first run's
    artifact. *)
Lemma play_superseded_counterexample :
  let st := run good_world [CJoin 100] (init_state ∅) in
  let cs := [CPlay 100 "https://x/1"; CPlay 100 "https://x/2"] in
  ~ (forall st', st' ∈ run_states good_world cs st ->
       transport_content st' 100
       <> Some (Converted voice_format (Downloaded "https://x/1"))).
Proof.
  intros st cs H.
  apply (H (exec good_world (CPlay 100 "https://x/1") st)).
  - unfold cs. simpl. apply list_elem_of_further, list_elem_of_here.
  - by vm_compute.
Qed.

Lemma play_audio_trace (w : world) (c : Z) (source : string) (st : state) :
  exists evs,
    trace (play_audio w c source st).2 = trace st ++ evs
    /\ Forall (pipeline_event c source) evs.
Proof.
  pose proof (play_audio_stage w c source st) as H.
  assert (H1 : pipeline_event c source (EvYtdl source)) by (by left).
  assert (H2 : pipeline_event c source
                 (EvFfmpeg audio_file_path (raw_name c) voice_format))
    by (right; by left).
  destruct (play_stage w c source st) as [| |b|].
  - rewrite H. exists []. by rewrite app_nil_r.
  - rewrite H. exists [EvYtdl source]. split; [done|].
    apply Forall_cons_2; [done|apply Forall_nil_2].
  - rewrite H. simpl.
    exists [EvYtdl source; EvFfmpeg audio_file_path (raw_name c) voice_format].
    split; [by rewrite <-app_assoc|].
    apply Forall_cons_2; [done|]. apply Forall_cons_2; [done|apply Forall_nil_2].
  - destruct H as (a & _ & ->). simpl.
    exists [EvYtdl source; EvFfmpeg audio_file_path (raw_name c) voice_format;
            EvSetInput a (raw_name c)].
    split; [by rewrite <-!app_assoc|].
    apply Forall_cons_2; [done|]. apply Forall_cons_2; [done|].
    apply Forall_cons_2; [|apply Forall_nil_2]. right; right. by eexists.
Qed.

(** C2, as the code has it: two plays for two different chats do not run
    side by side.  [play_audio] gives way to no other handler between its
    membership test and its hand-off, so the play that runs second makes its
    first call only when the first has made its last: the first blocks the
    second, and both download to the same [ytdl_out.mp3].  Run one after the
    other, in either order, each run ends, and whether it succeeds is
    decided by the answers its own download and conversion get.  Neither
    run touches the other chat's raw file or what the other chat's call
    object plays from; and each chat whose run succeeds ends up playing the
    conversion of its own source. *)
Theorem play_distinct_chats (w : world) (c1 c2 : Z) (s1 s2 : string) (st : state) :
  c1 <> c2 -> registry_ok st ->
  let p1 := play_audio w c1 s1 st in
  let p2 := play_audio w c2 s2 p1.2 in
  (exists b1 b2,
      p1.1 = Ret b1 /\ p2.1 = Ret b2
      /\ (b1 = true <-> play_stage w c1 s1 st = Played)
      /\ (b2 = true <-> play_stage w c2 s2 p1.2 = Played)
      /\ (b1 = true ->
          transport_content p2.2 c1 = Some (Converted voice_format (Downloaded s1)))
      /\ (b2 = true ->
          transport_content p2.2 c2 = Some (Converted voice_format (Downloaded s2))))
  /\ fs p2.2 !! raw_name c1 = fs p1.2 !! raw_name c1
  /\ transport_input p2.2 c1 = transport_input p1.2 c1
  /\ fs p1.2 !! raw_name c2 = fs st !! raw_name c2
  /\ transport_input p1.2 c2 = transport_input st c2
  /\ exists evs1 evs2,
       trace p1.2 = trace st ++ evs1
       /\ trace p2.2 = trace st ++ evs1 ++ evs2
       /\ Forall (pipeline_event c1 s1) evs1
       /\ Forall (pipeline_event c2 s2) evs2.
Proof.
  intros Hne Hok p1 p2.
  assert (Hok1 : registry_ok p1.2) by apply (exec_registry_ok w (CPlay c1 s1) st Hok).
  assert (F21 : fs p2.2 !! raw_name c1 = fs p1.2 !! raw_name c1)
    by (by apply play_audio_fs_other).
  assert (I21 : transport_input p2.2 c1 = transport_input p1.2 c1)
    by (by apply play_audio_input_other).
  split; [|split; [done|split; [done|split; [|split]]]].
  - destruct (play_audio_result w c1 s1 st) as (b1 & st1 & Hp1 & Hb1).
    destruct (play_audio_result w c2 s2 p1.2) as (b2 & st2 & Hp2 & Hb2).
    exists b1, b2. fold p1 in Hp1. fold p2 in Hp2.
    split; [by rewrite Hp1|]. split; [by rewrite Hp2|].
    split; [done|]. split; [done|]. split.
    + intros Hs%Hb1.
      destruct (play_audio_played w c1 s1 st Hs)
        as (a & st' & _ & Hp & _ & _ & Hf & Hi & _).
      fold p1 in Hp. unfold transport_content. rewrite I21, Hp; simpl.
      rewrite Hi; simpl. rewrite <-Hf. rewrite F21. by rewrite Hp.
    + intros Hs%Hb2.
      destruct (play_audio_played w c2 s2 p1.2 Hs)
        as (a & st' & _ & Hp & _ & _ & Hf & Hi & _).
      fold p2 in Hp. unfold transport_content. rewrite Hp; simpl.
      by rewrite Hi.
  - by apply play_audio_fs_other.
  - by apply play_audio_input_other.
  - destruct (play_audio_trace w c1 s1 st) as (evs1 & Ht1 & He1).
    destruct (play_audio_trace w c2 s2 p1.2) as (evs2 & Ht2 & He2).
    exists evs1, evs2. fold p1 in Ht1. fold p2 in Ht2.
    split; [done|]. split; [|done]. by rewrite Ht2, Ht1, <-app_assoc.
Qed.

Lemma play_distinct_chats_witness :
  let st := run good_world [CJoin 100; CJoin 200] (init_state ∅) in
  let st' := run good_world [CPlay 100 "https://x/1"; CPlay 200 "https://x/2"] st in
  (100 <> 200)%Z
  /\ registry_ok st
  /\ transport_content st' 100 = Some (Converted voice_format (Downloaded "https://x/1"))
  /\ transport_content st' 200 = Some (Converted voice_format (Downloaded "https://x/2")).
Proof.
  intros st st'.
  assert (Hok : registry_ok st) by apply run_registry_ok, registry_ok_init.
  assert (Hne : (100 <> 200)%Z) by lia.
  split; [exact Hne|]. split; [exact Hok|].
  destruct (play_distinct_chats good_world 100 200 "https://x/1" "https://x/2" st Hne Hok)
    as [(b1 & b2 & _ & _ & Hb1 & Hb2 & H1 & H2) _].
  split; [apply H1, Hb1|apply H2, Hb2]; reflexivity.
Defined.

(** C2 as claimed fails: two chats have joined and a play is issued for
    each.  Were the two pipelines to run side by side, each would start
    its download before the other's hand-off.  In whichever order the event
    loop runs the two plays, that is not so: the download of the one that
    runs second starts after the hand-off of the first. *)
Lemma play_distinct_chats_counterexample :
  let st := run good_world [CJoin 100; CJoin 200] (init_state ∅) in
  let p1 := CPlay 100 "https://x/1" in
  let p2 := CPlay 200 "https://x/2" in
  let overlap tr :=
    logged_before (EvYtdl "https://x/1") (EvSetInput 1%nat "200.raw") tr
    && logged_before (EvYtdl "https://x/2") (EvSetInput 0%nat "100.raw") tr in
  transport_input (run good_world [p1; p2] st) 100 = Some "100.raw"
  /\ transport_input (run good_world [p1; p2] st) 200 = Some "200.raw"
  /\ ~ (overlap (trace (run good_world [p1; p2] st)) = true
        \/ overlap (trace (run good_world [p2; p1] st)) = true).
Proof.
  intros st p1 p2 overlap. split; [by vm_compute|]. split; [by vm_compute|].
  intros [H|H]; vm_compute in H; discriminate H.
Qed.

(** * More of the code *)

(** ** Joining *)

(** [join_voice_chat] never raises and never touches a file or another
    chat's entry.  A chat that already has a call object keeps it, and only
    [start()] is called on it again; a chat that has none gets a new one,
    unless the factory raises.  The result is [True] exactly when [start()]
    was called and returned.  The chat is then in the registry with the
    object [start()] was called on, and it still is when the join returns,
    whatever was handled while [start()] was awaited, unless one of those
    commands left the chat. *)
Theorem join_voice_chat_spec (w : world) (chat_id : Z) (st : state) :
  exists b st',
    join_voice_chat w chat_id st = (Ret b, st')
    /\ fs st' = fs st
    /\ (forall c, c <> chat_id -> group_calls st' !! c = group_calls st !! c)
    /\ (forall a, group_calls st !! chat_id = Some a ->
          group_calls st' = group_calls st /\ objects st' = objects st
          /\ trace st' = trace st ++ [EvStart a chat_id]
          /\ b = start_ok w (trace st) a chat_id)
    /\ (group_calls st !! chat_id = None ->
          if factory_ok w (trace st) then
            st' = log (EvStart (fresh (dom (objects st))) chat_id) (created chat_id st)
            /\ b = start_ok w (trace st ++ [EvFactory]) (fresh (dom (objects st))) chat_id
          else b = false /\ st' = log EvFactory st)
    /\ (b = true ->
        exists a tr,
          group_calls st' !! chat_id = Some a
          /\ trace st' = tr ++ [EvStart a chat_id]
          /\ start_ok w tr a chat_id = true
          /\ forall during,
               forallb (fun c => negb (leaves chat_id c)) during = true ->
               group_calls (run w during st') !! chat_id = Some a).
Proof.
  rewrite join_voice_chat_eq, _get_call_eq.
  destruct (group_calls st !! chat_id) as [a|] eqn:E.
  - eexists _, _. split; [reflexivity|]. simpl.
    split; [done|]. split; [done|]. split; [by intros a' [= <-]|].
    split; [done|]. intros Hb. exists a, (trace st).
    split; [done|]. split; [done|]. split; [done|].
    intros during Hd. by apply run_keeps_call.
  - destruct (factory_ok w (trace st)).
    + eexists _, _. split; [reflexivity|]. simpl.
      split; [done|]. split; [intros c Hc; by rewrite lookup_insert_ne|].
      split; [done|]. split; [done|]. intros Hb.
      exists (fresh (dom (objects st))), (trace st ++ [EvFactory]).
      split; [apply lookup_insert_eq|]. split; [done|]. split; [done|].
      intros during Hd. apply run_keeps_call; [done|]. apply lookup_insert_eq.
    + exists false, (log EvFactory st). split; [done|]. split; [done|].
      split; [done|]. split; [done|]. split; done.
Qed.

(** When the call object is created and [start()] then raises,
    [join_voice_chat] returns [False] and the chat stays in the registry:
    [get_status] reports it connected and a later play is not rejected as
    not joined. *)
Theorem join_start_raises (w : world) (chat_id : Z) (st : state) :
  group_calls st !! chat_id = None ->
  factory_ok w (trace st) = true ->
  start_ok w (trace st ++ [EvFactory]) (fresh (dom (objects st))) chat_id = false ->
  exists st',
    join_voice_chat w chat_id st = (Ret false, st')
    /\ group_calls st' !! chat_id = Some (fresh (dom (objects st)))
    /\ (exists s, get_status chat_id st' = (Ret s, st') /\ connected s = true)
    /\ (forall source, play_stage w chat_id source st' <> NotJoined).
Proof.
  intros E Hf Hs. rewrite join_voice_chat_eq, _get_call_eq, E, Hf.
  simpl. rewrite Hs. eexists. split; [reflexivity|]. simpl.
  assert (Hin : <[chat_id := fresh (dom (objects st))]> (group_calls st) !! chat_id
                = Some (fresh (dom (objects st)))) by apply lookup_insert_eq.
  split; [done|]. split.
  - unfold get_status. unfold_py. simpl. eexists. split; [reflexivity|]. simpl.
    apply bool_decide_eq_true. rewrite Hin. by eexists.
  - intros source. unfold play_stage. simpl. rewrite Hin.
    destruct (yt_raises _ || _); [done|]. destruct (option_like _); [done|].
    by destruct (ffmpeg_run _ _ _ _).
Qed.

Lemma join_start_raises_witness :
  (init_state ∅).(group_calls) !! 100 = None
  /\ (join_voice_chat bad_start_world 100 (init_state ∅)).1 = Ret false
  /\ group_calls (join_voice_chat bad_start_world 100 (init_state ∅)).2 !! 100
     = Some 0%nat.
Proof.
  assert (E : (init_state ∅).(group_calls) !! 100 = None) by reflexivity.
  split; [exact E|].
  destruct (join_start_raises bad_start_world 100 (init_state ∅)
              E eq_refl eq_refl) as (st' & -> & H & _).
  split; [reflexivity|exact H].
Defined.

(** ** Playing a file *)

(** A successful [play_from_file]: the file was there and was not the
    chat's own raw file; the transport now plays its conversion; the file
    itself is gone; ffmpeg and the hand-off are all that was called. *)
Theorem play_from_file_played (w : world) (chat_id : Z) (file_path : path)
    (st st' : state) :
  play_from_file w chat_id file_path st = (Ret true, st') ->
  exists a x,
    group_calls st !! chat_id = Some a
    /\ fs st !! file_path = Some x
    /\ file_path <> raw_name chat_id
    /\ transport_content st' chat_id = Some (Converted voice_format x)
    /\ fs st' !! file_path = None
    /\ trace st' = trace st ++
         [EvFfmpeg file_path (raw_name chat_id) voice_format;
          EvSetInput a (raw_name chat_id)].
Proof.
  rewrite play_from_file_eq, convert_audio_eq.
  destruct (group_calls st !! chat_id) as [a|] eqn:E; [|done].
  destruct (option_like _); [done|].
  destruct (delete _ _ !! file_path) as [x|] eqn:I; [|done].
  assert (Hne : raw_name chat_id <> file_path).
  { intros <-. by rewrite lookup_delete_eq in I. }
  rewrite lookup_delete_ne in I by done.
  destruct (ffmpeg_run w (trace st) file_path x) as [|[|]]; [|done..].
  intros [= <-]. exists a, x. split; [done|]. split; [done|].
  split; [done|]. split; [|split].
  - unfold transport_content.
    rewrite transport_input_install by done. simpl.
    rewrite lookup_delete_ne by done. apply lookup_insert_eq.
  - simpl. apply lookup_delete_eq.
  - simpl. by rewrite <-app_assoc.
Qed.

Lemma play_from_file_played_witness :
  let f := ReplyFile (Some "audio/mpeg") "song.mp3" "song" in
  let st := (download_media f (run good_world [CJoin 100] (init_state ∅))).2 in
  exists st',
    play_from_file good_world 100 "song.mp3" st = (Ret true, st')
    /\ transport_content st' 100 = Some (Converted voice_format (Attachment "song"))
    /\ fs st' !! "song.mp3" = None.
Proof.
  intros f st. eexists.
  assert (H : play_from_file good_world 100 "song.mp3" st
              = (Ret true, (play_from_file good_world 100 "song.mp3" st).2))
    by reflexivity.
  split; [exact H|].
  destruct (play_from_file_played good_world 100 "song.mp3" st _ H)
    as (a & x & _ & Hx & _ & Hc & Hf & _).
  split; [|exact Hf].
  assert (Hx' : fs st !! "song.mp3" = Some (Attachment "song")) by reflexivity.
  rewrite Hx' in Hx. injection Hx as <-. exact Hc.
Defined.

(** [play_from_file] on a file that does not exist, or on the chat's own raw
    file: the result is [False], nothing is handed to the transport, and the
    raw file the chat had is gone, while the call object still names it. *)
Theorem play_from_file_bad_input (w : world) (chat_id : Z) (file_path : path)
    (st : state) (a : addr) :
  group_calls st !! chat_id = Some a ->
  fs st !! file_path = None \/ file_path = raw_name chat_id ->
  exists st',
    play_from_file w chat_id file_path st = (Ret false, st')
    /\ fs st' !! raw_name chat_id = None
    /\ group_calls st' = group_calls st
    /\ objects st' = objects st
    /\ trace st' = trace st ++ [EvFfmpeg file_path (raw_name chat_id) voice_format].
Proof.
  intros E Hbad. rewrite play_from_file_eq, convert_audio_eq, E.
  assert (I : delete (raw_name chat_id) (fs st) !! file_path = None).
  { destruct Hbad as [Hno| ->]; [|apply lookup_delete_eq].
    apply lookup_delete_None. by right. }
  rewrite I. eexists. split; [by destruct (option_like _)|]. simpl.
  split; [apply lookup_delete_eq|done].
Qed.

Lemma play_from_file_bad_input_witness :
  let st := run good_world [CJoin 100; CPlay 100 "https://x/y"] (init_state ∅) in
  group_calls st !! 100 = Some 0%nat
  /\ is_Some (fs st !! raw_name 100)
  /\ exists st',
       play_from_file good_world 100 (raw_name 100) st = (Ret false, st')
       /\ fs st' !! raw_name 100 = None
       /\ transport_input st' 100 = Some (raw_name 100).
Proof.
  intros st.
  assert (E : group_calls st !! 100 = Some 0%nat) by reflexivity.
  split; [exact E|]. split; [by vm_compute; eexists|].
  destruct (play_from_file_bad_input good_world 100 (raw_name 100) st 0%nat E
              (or_intror eq_refl)) as (st' & Hp & Hf & Hg & Ho & _).
  exists st'. split; [exact Hp|]. split; [exact Hf|].
  unfold transport_input. rewrite Hg, Ho. reflexivity.
Defined.

(** ** After a leave *)

(** Once [leave_voice_chat] has returned [True], the chat is out: a play is
    rejected, every playout command and a second leave return [False], none
    of them calls anything or changes anything, and [get_status] reports
    the chat as not connected. *)
Theorem left_chat_rejects (w : world) (chat_id : Z) (st st' : state) :
  leave_voice_chat w chat_id st = (Ret true, st') ->
  (forall source, play_audio w chat_id source st' = (Ret false, st'))
  /\ (forall file_path, play_from_file w chat_id file_path st' = (Ret false, st'))
  /\ (forall op, playout_command w op chat_id st' = (Ret false, st'))
  /\ leave_voice_chat w chat_id st' = (Ret false, st')
  /\ get_status chat_id st' = (Ret (Status false chat_id false), st')
  /\ fs st' !! raw_name chat_id = None.
Proof.
  rewrite leave_voice_chat_eq.
  destruct (group_calls st !! chat_id) as [a|] eqn:E; [|done].
  destruct (stop_ok w (trace st) a); [|done]. intros [= <-].
  set (st' := State _ _ _ _).
  assert (Hno : group_calls st' !! chat_id = None) by apply lookup_delete_eq.
  split; [|split; [|split; [|split; [|split]]]].
  - intros source. by rewrite play_audio_eq, Hno.
  - intros file_path. by rewrite play_from_file_eq, Hno.
  - intros op. by rewrite playout_command_spec, Hno.
  - by rewrite leave_voice_chat_eq, Hno.
  - unfold get_status. unfold_py.
    by rewrite (bool_decide_is_Some_false _ Hno).
  - apply lookup_delete_eq.
Qed.

Lemma left_chat_rejects_witness :
  let st := run good_world [CJoin 100; CPlay 100 "https://x/y"] (init_state ∅) in
  exists st',
    leave_voice_chat good_world 100 st = (Ret true, st')
    /\ play_audio good_world 100 "https://x/z" st' = (Ret false, st')
    /\ fs st' !! raw_name 100 = None.
Proof.
  intros st. eexists.
  assert (H : leave_voice_chat good_world 100 st
              = (Ret true, (leave_voice_chat good_world 100 st).2)) by reflexivity.
  split; [exact H|].
  destruct (left_chat_rejects good_world 100 st _ H) as (Hp & _ & _ & _ & _ & Hf).
  split; [apply Hp|exact Hf].
Defined.

(** ** What holds after every run *)

Lemma run_app (w : world) (cs1 cs2 : list command) (st : state) :
  run w (cs1 ++ cs2) st = run w cs2 (run w cs1 st).
Proof. unfold run. apply foldl_app. Qed.

Lemma run_ind (w : world) (P : state -> Prop) (Q : command -> Prop) :
  (forall c st, Q c -> P st -> P (exec w c st)) ->
  forall cs st, Forall Q cs -> P st -> P (run w cs st).
Proof.
  intros Hstep cs. induction cs as [|c cs IH]; intros st Hcs Hst; [done|].
  inversion Hcs; subst. simpl. apply IH; [done|]. by apply Hstep.
Qed.

Lemma play_from_file_stage (w : world) (chat_id : Z) (file_path : path) (st : state) :
  let out := raw_name chat_id in
  let f0 := delete out (fs st) in
  match group_calls st !! chat_id with
  | None => play_from_file w chat_id file_path st = (Ret false, st)
  | Some a =>
      match (if option_like out then None else f0 !! file_path) with
      | None =>
          play_from_file w chat_id file_path st
          = (Ret false, transcoding file_path chat_id st f0)
      | Some x =>
          match ffmpeg_run w (trace st) file_path x with
          | FfDone =>
              play_from_file w chat_id file_path st
              = (Ret true,
                 install a out
                   (transcoding file_path chat_id st
                      (delete file_path (<[out := Converted voice_format x]> f0))))
          | FfError b =>
              play_from_file w chat_id file_path st
              = (Ret false,
                 transcoding file_path chat_id st
                   (if b then <[out := Truncated voice_format x]> f0 else f0))
          end
      end
  end.
Proof.
  intros out f0. rewrite play_from_file_eq, convert_audio_eq. fold out f0.
  destruct (group_calls st !! chat_id) as [a|]; [|done].
  destruct (option_like out); [done|].
  destruct (f0 !! file_path) as [x|]; [|done].
  by destruct (ffmpeg_run w (trace st) file_path x) as [|[|]].
Qed.

Ltac solve_events :=
  repeat (apply Forall_cons_2;
          [simpl; first [done | by eexists | split; [done|by eexists]]|]);
  apply Forall_nil_2.

(** What one command adds to the log. *)
Lemma exec_trace (w : world) (c : command) (st : state) :
  exists evs, trace (exec w c st) = trace st ++ evs /\ Forall per_chat_event evs.
Proof.
  destruct c as [c|c|c|c|c source|c f|op c|c]; simpl.
  - rewrite join_voice_chat_eq, _get_call_eq.
    destruct (group_calls st !! c) as [a|]; [eexists [_]; split; [done|solve_events]|].
    destruct (factory_ok w (trace st)); simpl.
    + exists [EvFactory; EvStart (fresh (dom (objects st))) c].
      split; [by rewrite <-app_assoc|]. solve_events.
    + exists [EvFactory]; split; [done|solve_events].
  - rewrite leave_voice_chat_eq.
    destruct (group_calls st !! c) as [a|]; [|exists []; by rewrite app_nil_r].
    destruct (stop_ok w (trace st) a); exists [EvStop a];
      (split; [done|solve_events]).
  - rewrite leave_before_stop_eq.
    destruct (group_calls st !! c) as [a|]; [|exists []; by rewrite app_nil_r].
    exists [EvStop a]; split; [done|solve_events].
  - rewrite leave_after_stop_eq.
    destruct (group_calls st !! c) as [a|]; exists []; by rewrite app_nil_r.
  - pose proof (play_audio_stage w c source st) as H.
    destruct (play_stage w c source st) as [| |b|].
    + rewrite H. exists []. by rewrite app_nil_r.
    + rewrite H. exists [EvYtdl source]; split; [done|solve_events].
    + rewrite H. simpl.
      exists [EvYtdl source; EvFfmpeg audio_file_path (raw_name c) voice_format].
      split; [by rewrite <-app_assoc|]. solve_events.
    + destruct H as (a & _ & ->). simpl.
      exists [EvYtdl source; EvFfmpeg audio_file_path (raw_name c) voice_format;
              EvSetInput a (raw_name c)].
      split; [by rewrite <-!app_assoc|]. solve_events.
  - unfold bind, download_media.
    match goal with
    | |- context [play_from_file w c ?p ?s] =>
        pose proof (play_from_file_stage w c p s) as H; cbv zeta in H
    end.
    simpl in H.
    destruct (group_calls st !! c) as [a|].
    2:{ rewrite H. exists []. by rewrite app_nil_r. }
    destruct (if option_like _ then _ else _) as [x|].
    2:{ rewrite H. simpl. eexists [_]; split; [done|solve_events]. }
    destruct (ffmpeg_run _ _ _ _) as [|b]; rewrite H; simpl.
    + exists [EvFfmpeg (saved_as f) (raw_name c) voice_format;
              EvSetInput a (raw_name c)].
      split; [by rewrite <-app_assoc|]. solve_events.
    + eexists [_]; split; [done|solve_events].
  - rewrite playout_command_spec.
    destruct (group_calls st !! c) as [a|]; [|exists []; by rewrite app_nil_r].
    exists [EvPlayout a op]; split; [done|solve_events].
  - exists []. by rewrite app_nil_r.
Qed.

(** In every run of the manager, ffmpeg is only ever asked for the voice
    format and for an output named after a chat id, and a call object is
    only ever given such a file to play. *)
Theorem run_per_chat_events (w : world) (cs : list command)
    (files : gmap path content) :
  Forall per_chat_event (trace (run w cs (init_state files))).
Proof.
  apply (run_ind w (fun st => Forall per_chat_event (trace st)) (fun _ => True)).
  - intros c st _ Hst. destruct (exec_trace w c st) as (evs & -> & Hevs).
    by apply Forall_app.
  - by apply Forall_true.
  - apply Forall_nil_2.
Qed.

(** What one command does to the registry and to the call objects: it
    leaves the objects alone, or makes a new one for a chat that had none,
    or gives a chat's own object the chat's own raw file to play. *)
Lemma exec_objects (w : world) (c : command) (st : state) :
  let st' := exec w c st in
  (objects st' = objects st
   /\ (group_calls st' = group_calls st
       \/ exists chat_id, group_calls st' = delete chat_id (group_calls st)))
  \/ (exists chat_id, group_calls st !! chat_id = None
        /\ group_calls st' = group_calls (created chat_id st)
        /\ objects st' = objects (created chat_id st))
  \/ (exists chat_id a, group_calls st !! chat_id = Some a
        /\ group_calls st' = group_calls st
        /\ objects st' = <[a := Call (Some (raw_name chat_id))]> (objects st)).
Proof.
  destruct c as [c|c|c|c|c source|c f|op c|c]; simpl.
  - rewrite join_voice_chat_eq, _get_call_eq.
    destruct (group_calls st !! c) as [a|] eqn:E; [left; by split; [|left]|].
    destruct (factory_ok w (trace st)); [|left; by split; [|left]].
    right; left. by exists c.
  - rewrite leave_voice_chat_eq.
    destruct (group_calls st !! c) as [a|] eqn:E; [|left; by split; [|left]].
    destruct (stop_ok w (trace st) a); [|left; by split; [|left]].
    left. split; [done|]. right. by exists c.
  - rewrite leave_before_stop_eq.
    destruct (group_calls st !! c) as [a|] eqn:E; left; by split; [|left].
  - rewrite leave_after_stop_eq.
    destruct (group_calls st !! c) as [a|] eqn:E; [|left; by split; [|left]].
    left. split; [done|]. right. by exists c.
  - pose proof (play_audio_stage w c source st) as H.
    destruct (play_stage w c source st) as [| |b|];
      [rewrite H; left; by split; [|left]..|].
    destruct H as (a & E & ->). right; right. by exists c, a.
  - unfold bind, download_media.
    match goal with
    | |- context [play_from_file w c ?p ?s] =>
        pose proof (play_from_file_stage w c p s) as H; cbv zeta in H
    end.
    simpl in H.
    destruct (group_calls st !! c) as [a|] eqn:E;
      [|rewrite H; left; by split; [|left]].
    destruct (if option_like _ then _ else _) as [x|];
      [|rewrite H; left; by split; [|left]].
    destruct (ffmpeg_run _ _ _ _) as [|b]; rewrite H;
      [|left; by split; [|left]].
    right; right. by exists c, a.
  - rewrite playout_command_spec.
    destruct (group_calls st !! c) as [a|]; left; by split; [|left].
  - left. by split; [|left].
Qed.

Lemma exec_input_owned (w : world) (c : command) (st : state) :
  registry_ok st /\ input_owned st ->
  registry_ok (exec w c st) /\ input_owned (exec w c st).
Proof.
  intros [Hok Hown]. split; [by apply exec_registry_ok|].
  destruct Hok as [Hdom Hinj].
  destruct (exec_objects w c st)
    as [[Ho [Hg|[x Hg]]]|[(x & Hx & Hg & Ho)|(x & a & Hx & Hg & Ho)]];
    intros c' a' p; rewrite Hg, Ho.
  - apply Hown.
  - intros [_ H]%lookup_delete_Some. by apply Hown.
  - simpl. pose proof (is_fresh (dom (objects st))) as Hfresh.
    destruct (decide (x = c')) as [->|Hne].
    + rewrite lookup_insert_eq. intros [= <-]. by rewrite lookup_insert_eq.
    + rewrite lookup_insert_ne by done. intros Hc'.
      rewrite lookup_insert_ne; [by apply Hown|].
      intros <-. by apply Hdom in Hc'.
  - intros Hc'. destruct (decide (a = a')) as [<-|Hne].
    + rewrite lookup_insert_eq. intros [= <-]. f_equal. by eapply Hinj.
    + rewrite lookup_insert_ne by done. by apply Hown.
Qed.

(** In every run of the manager, a chat's call object is never given
    another chat's raw file: whatever is in the registry with an
    [input_filename] has the file name of its own chat id, and no two chat
    ids share a call object. *)
Theorem run_input_owned (w : world) (cs : list command)
    (files : gmap path content) :
  let st := run w cs (init_state files) in
  registry_ok st
  /\ forall c p, transport_input st c = Some p -> p = raw_name c.
Proof.
  assert (H : registry_ok (run w cs (init_state files))
              /\ input_owned (run w cs (init_state files))).
  { apply (run_ind w (fun st => registry_ok st /\ input_owned st) (fun _ => True)).
    - intros c st _. apply exec_input_owned.
    - by apply Forall_true.
    - split; [apply registry_ok_init|]. intros c a p. simpl.
      by rewrite lookup_empty. }
  destruct H as [Hok Hown]. split; [done|]. intros c p. unfold transport_input.
  destruct (group_calls _ !! c) as [a|] eqn:E; simpl; [|done].
  destruct (objects _ !! a) as [[o]|] eqn:O; simpl; [|done].
  intros ->. by eapply Hown.
Qed.

Lemma ends_raw_raw_name (c : Z) : ends_raw (raw_name c) = true.
Proof.
  unfold ends_raw, raw_name.
  by rewrite list_ascii_of_string_app, rev_app_distr.
Qed.

Lemma plain_not_raw_name (f : reply_file) (c : Z) :
  ends_raw (saved_as f) = false -> saved_as f <> raw_name c.
Proof. intros H E. by rewrite E, ends_raw_raw_name in H. Qed.

Lemma play_from_file_fs_other (w : world) (c c' : Z) (file_path : path)
    (st : state) :
  c' <> c ->
  is_Some (fs (play_from_file w c file_path st).2 !! raw_name c') ->
  is_Some (fs st !! raw_name c').
Proof.
  intros Hne.
  assert (Hout : raw_name c <> raw_name c') by (by intros ?%raw_name_inj).
  pose proof (play_from_file_stage w c file_path st) as H. cbv zeta in H.
  destruct (group_calls st !! c) as [a|]; [|by rewrite H].
  destruct (if option_like _ then _ else _) as [x|].
  2:{ rewrite H. simpl. by rewrite lookup_delete_ne. }
  destruct (ffmpeg_run _ _ _ _) as [|[|]]; rewrite H; simpl.
  - intros [_ Hs]%lookup_delete_is_Some.
    by rewrite lookup_insert_ne, lookup_delete_ne in Hs.
  - by rewrite lookup_insert_ne, lookup_delete_ne.
  - by rewrite lookup_delete_ne.
Qed.

Lemma exec_no_orphan (w : world) (c : command) (st : state) :
  plain_attachment c -> no_orphan st -> no_orphan (exec w c st).
Proof.
  intros Hplain Hno c'.
  destruct c as [c|c|c|c|c source|c f|op c|c]; simpl.
  - rewrite join_voice_chat_eq, _get_call_eq.
    destruct (group_calls st !! c) as [a|] eqn:E; [apply Hno|].
    destruct (factory_ok w (trace st)); [|apply Hno]. simpl.
    intros H%Hno. destruct (decide (c = c')) as [->|Hne].
    + rewrite lookup_insert_eq. by eexists.
    + by rewrite lookup_insert_ne.
  - rewrite leave_voice_chat_eq.
    destruct (group_calls st !! c) as [a|] eqn:E; [|apply Hno].
    destruct (stop_ok w (trace st) a); [|apply Hno]. simpl.
    destruct (decide (c = c')) as [->|Hne].
    + rewrite lookup_delete_eq. by intros [? ?].
    + rewrite !lookup_delete_ne; [apply Hno|done|by intros ?%raw_name_inj].
  - rewrite leave_before_stop_eq.
    destruct (group_calls st !! c) as [a|] eqn:E; apply Hno.
  - rewrite leave_after_stop_eq.
    destruct (group_calls st !! c) as [a|] eqn:E; [|apply Hno]. simpl.
    destruct (decide (c = c')) as [->|Hne].
    + rewrite lookup_delete_eq. by intros [? ?].
    + rewrite !lookup_delete_ne; [apply Hno|done|by intros ?%raw_name_inj].
  - destruct (play_audio_registry w c source st) as [-> _].
    destruct (decide (c' = c)) as [->|Hne].
    + destruct (group_calls st !! c) as [a|] eqn:E; [by eexists|].
      rewrite play_audio_eq, E. simpl. intros H%Hno. by rewrite E in H.
    + rewrite play_audio_fs_other by done. apply Hno.
  - unfold bind, download_media. simpl in Hplain.
    set (st0 := set_fs (<[saved_as f := Attachment (media f)]> (fs st)) st).
    assert (Hp : forall x, saved_as f <> raw_name x)
      by (intros x; by apply plain_not_raw_name).
    assert (Hfs0 : forall x, fs st0 !! raw_name x = fs st !! raw_name x).
    { intros x. simpl. by rewrite lookup_insert_ne. }
    destruct (play_from_file_registry w c (saved_as f) st0) as [Hg _].
    destruct (play_from_file w c (saved_as f) st0) as [r st2] eqn:P.
    assert (Hst2 : st2 = (play_from_file w c (saved_as f) st0).2) by by rewrite P.
    simpl in Hg. replace (match r with Ret _ | _ => _ end) with (r, st2)
      by by destruct r.
    simpl. rewrite Hg. change (group_calls st0) with (group_calls st).
    destruct (decide (c' = c)) as [->|Hne].
    + destruct (group_calls st !! c) as [a|] eqn:E; [by eexists|].
      rewrite Hst2, play_from_file_eq.
      change (group_calls st0) with (group_calls st). rewrite E. simpl.
      rewrite lookup_insert_ne by done. intros H%Hno. by rewrite E in H.
    + rewrite Hst2. intros H%play_from_file_fs_other; [|done].
      rewrite Hfs0 in H. by apply Hno.
  - rewrite playout_command_spec.
    destruct (group_calls st !! c) as [a|]; apply Hno.
  - apply Hno.
Qed.

(** ** Leaving, with other commands in between *)



(** ** No raw file without its chat *)

(** On a disk that starts without raw files, and with attachments never
    saved under a name ending in [.raw], no raw file ever outlives its chat: in
    every run, a raw file on disk belongs to a chat in the registry. *)
Theorem run_no_orphan (w : world) (cs : list command)
    (files : gmap path content) :
  (forall c, files !! raw_name c = None) ->
  Forall plain_attachment cs ->
  no_orphan (run w cs (init_state files)).
Proof.
  intros Hfiles Hcs. apply (run_ind w no_orphan plain_attachment); [|done|].
  - intros c st. apply exec_no_orphan.
  - intros c. simpl. rewrite Hfiles. by intros [? ?].
Qed.

Lemma run_no_orphan_witness :
  let f := ReplyFile (Some "audio/mpeg") "song.mp3" "song" in
  let cs := [CJoin 100; CPlayFile 100 f; CJoin 200; CPlay 200 "https://x/y";
             CLeave 100] in
  Forall plain_attachment cs
  /\ no_orphan (run good_world cs (init_state ∅)).
Proof.
  intros f cs.
  assert (Hcs : Forall plain_attachment cs).
  { repeat (apply Forall_cons_2; [simpl; try done|]). apply Forall_nil_2. }
  split; [exact Hcs|]. apply (run_no_orphan good_world cs ∅); [|exact Hcs].
  intros c. apply lookup_empty.
Defined.

(** However the other handlers come in between the two halves of a leave,
    when the leave resumes after [stop()] the chat ends outside the
    registry with no raw file on disk (on a disk that started without raw
    files, and with attachments never saved under a name ending in
    [.raw]). *)
Theorem leave_end_clean (w : world) (cs : list command)
    (files : gmap path content) (chat_id : Z) :
  (forall c, files !! raw_name c = None) ->
  Forall plain_attachment cs ->
  let st := run w (cs ++ [CLeaveEnd chat_id]) (init_state files) in
  group_calls st !! chat_id = None /\ fs st !! raw_name chat_id = None.
Proof.
  intros Hfiles Hcs. rewrite run_app. simpl.
  pose proof (run_ind w no_orphan plain_attachment (exec_no_orphan w) cs
                (init_state files) Hcs) as Hno.
  set (st := run w cs (init_state files)) in *.
  assert (Hst : no_orphan st).
  { apply Hno. intros c. simpl. rewrite Hfiles. by intros [? ?]. }
  rewrite leave_after_stop_eq.
  destruct (group_calls st !! chat_id) as [a|] eqn:E; simpl.
  - split; apply lookup_delete_eq.
  - split; [done|]. destruct (fs st !! raw_name chat_id) eqn:F; [|done].
    assert (is_Some (group_calls st !! chat_id)) as [? ?] by (apply Hst; by rewrite F).
    congruence.
Qed.

Lemma leave_end_clean_witness :
  let cs := [CJoin 100; CPlay 100 "https://x/1"; CLeaveBegin 100;
             CPlay 100 "https://x/2"] in
  let st := run good_world (cs ++ [CLeaveEnd 100]) (init_state ∅) in
  Forall plain_attachment cs
  /\ is_Some (fs (run good_world cs (init_state ∅)) !! raw_name 100)
  /\ group_calls st !! 100 = None /\ fs st !! raw_name 100 = None.
Proof.
  intros cs st.
  assert (Hcs : Forall plain_attachment cs).
  { repeat (apply Forall_cons_2; [simpl; try done|]). apply Forall_nil_2. }
  split; [exact Hcs|]. split; [by vm_compute; eexists|].
  apply (leave_end_clean good_world cs ∅ 100); [|exact Hcs].
  intros c. apply lookup_empty.
Defined.

(** ** Disconnecting *)

Lemma fresh_object_new (o : gmap addr call) (c : call) :
  o <> <[fresh (dom o) := c]> o.
Proof.
  intros E. apply (f_equal (fun m => m !! fresh (dom o))) in E.
  rewrite lookup_insert_eq in E.
  by rewrite (proj1 (not_elem_of_dom o _) (is_fresh (dom o))) in E.
Qed.

Lemma exec_no_join (w : world) (c : command) (st : state) (x : Z) :
  joins c = false ->
  is_Some (group_calls (exec w c st) !! x) -> is_Some (group_calls st !! x).
Proof.
  intros Hj.
  destruct (exec_registry w c st) as [[Hg _]|[(y & _ & Hg & _)|(y & Hy & Hg & Ho)]].
  - by rewrite Hg.
  - rewrite Hg. by intros [_ H]%lookup_delete_is_Some.
  - exfalso. destruct c as [c|c|c|c|c source|c f|op c|c]; try done; simpl in *.
    + rewrite leave_voice_chat_eq in Ho.
      destruct (group_calls st !! c) as [a|]; [destruct (stop_ok _ _ _)|];
        simpl in Ho; by apply fresh_object_new in Ho.
    + rewrite leave_before_stop_eq in Ho.
      destruct (group_calls st !! c) as [a|];
        simpl in Ho; by apply fresh_object_new in Ho.
    + rewrite leave_after_stop_eq in Ho.
      destruct (group_calls st !! c) as [a|];
        simpl in Ho; by apply fresh_object_new in Ho.
    + destruct (play_audio_registry w c source st) as [Hg' _].
      rewrite Hg' in Hg. simpl in Hg.
      apply (f_equal (fun m => m !! y)) in Hg.
      rewrite lookup_insert_eq, Hy in Hg. done.
    + unfold bind, download_media in Hg.
      match type of Hg with
      | context [play_from_file w c ?p ?s] =>
          destruct (play_from_file_registry w c p s) as [Hg' _];
          destruct (play_from_file w c p s) as [r st2]
      end.
      assert (group_calls st2 = <[y := fresh (dom (objects st))]> (group_calls st))
        as Hg2 by (by destruct r).
      simpl in Hg'. rewrite Hg' in Hg2.
      apply (f_equal (fun m => m !! y)) in Hg2.
      rewrite lookup_insert_eq, Hy in Hg2. done.
    + rewrite playout_command_spec in Hg.
      destruct (group_calls st !! c) as [a|]; simpl in Hg;
        apply (f_equal (fun m => m !! y)) in Hg;
        rewrite lookup_insert_eq, Hy in Hg; done.
    + apply (f_equal (fun m => m !! y)) in Hg.
      rewrite lookup_insert_eq, Hy in Hg. done.
Qed.

Lemma run_no_join (w : world) (cs : list command) (st : state) (x : Z) :
  forallb (fun c => negb (joins c)) cs = true ->
  is_Some (group_calls (run w cs st) !! x) -> is_Some (group_calls st !! x).
Proof.
  revert st. induction cs as [|c cs IH]; intros st Hcs; [done|].
  simpl in Hcs. apply andb_true_iff in Hcs as [Hc Hcs]. simpl.
  intros H%IH; [|done]. eapply exec_no_join; [|exact H].
  by destruct (joins c).
Qed.

Lemma leave_all_inv (w : world) (order : list (Z * list command)) :
  (forall tr a, stop_ok w tr a = true) ->
  Forall (fun o => Forall plain_attachment o.2) order ->
  Forall (fun o => forallb (fun c => negb (joins c)) o.2 = true) order ->
  forall st,
    no_orphan st ->
    (forall c, is_Some (group_calls st !! c) -> c ∈ order.*1) ->
    group_calls (leave_all w order st) = ∅
    /\ no_orphan (leave_all w order st).
Proof.
  intros Hstop. induction order as [|[c during] rest IH];
    intros Hplain Hjoin st Hno Hreg.
  - split; [|done]. apply map_eq. intros c. rewrite lookup_empty.
    destruct (group_calls st !! c) eqn:E; [|done].
    assert (c ∈ ([] : list Z)) as H by (apply Hreg; by rewrite E).
    by apply not_elem_of_nil in H.
  - apply Forall_cons_1 in Hplain as [Hp Hplain].
    apply Forall_cons_1 in Hjoin as [Hj Hjoin]. simpl in Hp, Hj.
    cbn [leave_all]. apply IH; [done|done| |].
    + destruct (group_calls st !! c) as [a|] eqn:E; [|done].
      rewrite leave_before_stop_eq, E, Hstop.
      apply (exec_no_orphan w (CLeaveEnd c)); [done|].
      by apply (run_ind w no_orphan plain_attachment (exec_no_orphan w)).
    + intros c' Hc'.
      assert (Hc : c' <> c /\ is_Some (group_calls st !! c')).
      { destruct (group_calls st !! c) as [a|] eqn:E.
        - rewrite leave_before_stop_eq, E, Hstop in Hc'.
          rewrite leave_after_stop_eq in Hc'.
          set (st2 := run w during (log (EvStop a) st)) in *.
          assert (Hback : is_Some (group_calls st2 !! c') ->
                          is_Some (group_calls st !! c')).
          { intros H. by apply (run_no_join w during) in H. }
          destruct (group_calls st2 !! c) as [a2|] eqn:E2; simpl in Hc'.
          + apply lookup_delete_is_Some in Hc' as [Hne H]. split; [done|].
            by apply Hback.
          + split; [|by apply Hback]. intros ->. rewrite E2 in Hc'.
            by destruct Hc'.
        - split; [|done]. intros ->. rewrite E in Hc'. by destruct Hc'. }
      destruct Hc as [Hne Hin]. apply Hreg in Hin. simpl in Hin.
      apply elem_of_cons in Hin as [?|?]; [done|done].
Qed.

(** [disconnect] leaves every voice chat, provided no chat is joined while
    it does so: given the keys of the registry in any order, a transport
    whose [stop()] does not raise, and whatever commands other than joins
    are handled while the loop waits for a [stop()], the loop ends with the
    registry empty and no raw file left on disk (on a disk that held no
    raw file when the manager started, and with attachments not saved
    under names ending in [.raw]). *)
Theorem leave_all_empties (w : world) (files : gmap path content)
    (before : list command) (order : list (Z * list command)) :
  (forall c, files !! raw_name c = None) ->
  Forall plain_attachment before ->
  Forall (fun o => Forall plain_attachment o.2) order ->
  Forall (fun o => forallb (fun c => negb (joins c)) o.2 = true) order ->
  (forall tr a, stop_ok w tr a = true) ->
  let st := run w before (init_state files) in
  keys_of st (order.*1) ->
  let st' := leave_all w order st in
  group_calls st' = ∅ /\ (forall c, fs st' !! raw_name c = None).
Proof.
  intros Hfiles Hbefore Hplain Hjoin Hstop st [_ Hkeys] st'.
  assert (Hst : no_orphan st).
  { apply (run_ind w no_orphan plain_attachment (exec_no_orphan w)); [done|].
    intros c. simpl. rewrite Hfiles. by intros [? ?]. }
  destruct (leave_all_inv w order Hstop Hplain Hjoin st Hst) as [Hg Hno].
  { intros c. apply Hkeys. }
  split; [done|]. intros c. fold st' in Hg, Hno.
  destruct (fs st' !! raw_name c) eqn:F; [|done].
  assert (is_Some (group_calls st' !! c)) as [a Ha] by (apply Hno; by rewrite F).
  by rewrite Hg, lookup_empty in Ha.
Qed.

Lemma leave_all_empties_witness :
  let before := [CJoin 100; CJoin 200; CPlay 200 "https://x/y"] in
  let order := [(200, [CPlay 100 "https://x/z"; CPlay 200 "https://x/w"]);
                (100, [CLeave 100])] in
  let st := run good_world before (init_state ∅) in
  keys_of st (order.*1)
  /\ is_Some (fs st !! raw_name 200)
  /\ group_calls (leave_all good_world order st) = ∅
  /\ fs (leave_all good_world order st) !! raw_name 100 = None
  /\ fs (leave_all good_world order st) !! raw_name 200 = None.
Proof.
  intros before order st.
  assert (Hkeys : keys_of st (order.*1)).
  { split.
    - apply NoDup_cons. split; [|apply NoDup_singleton].
      intros H%list_elem_of_singleton. discriminate H.
    - intros c. split.
      + intros H. apply elem_of_cons in H as [->|H]; [by vm_compute; eexists|].
        apply list_elem_of_singleton in H as ->. by vm_compute; eexists.
      + intros [a H]. change (group_calls st) with
          (<[200 := 1%nat]> (<[100 := 0%nat]> (∅ : gmap Z nat))) in H.
        destruct (decide (c = 200)) as [->|H2]; [left|].
        rewrite lookup_insert_ne in H by done.
        destruct (decide (c = 100)) as [->|H1]; [right; left|].
        rewrite lookup_insert_ne in H by done. by rewrite lookup_empty in H. }
  assert (Hb : Forall plain_attachment before).
  { repeat (apply Forall_cons_2; [simpl; try done|]). apply Forall_nil_2. }
  assert (Hp : Forall (fun o => Forall plain_attachment o.2) order).
  { repeat (apply Forall_cons_2;
            [simpl; repeat (apply Forall_cons_2; [simpl; try done|]);
             apply Forall_nil_2|]).
    apply Forall_nil_2. }
  assert (Hj : Forall (fun o => forallb (fun c => negb (joins c)) o.2 = true) order).
  { repeat (apply Forall_cons_2; [reflexivity|]). apply Forall_nil_2. }
  split; [exact Hkeys|]. split; [by vm_compute; eexists|].
  destruct (leave_all_empties good_world ∅ before order
              (fun c => lookup_empty _) Hb Hp Hj (fun _ _ => eq_refl) Hkeys)
    as [Hg Hf].
  split; [exact Hg|]. split; apply Hf.
Defined.

(** ** What the [.play] handler answers *)

Lemma play_from_file_true (w : world) (chat_id : Z) (file_path : path)
    (st st' : state) (x : content) :
  fs st !! file_path = Some x ->
  play_from_file w chat_id file_path st = (Ret true, st') ->
  transport_content st' chat_id = Some (Converted voice_format x).
Proof.
  intros Hx. pose proof (play_from_file_stage w chat_id file_path st) as H.
  cbv zeta in H.
  destruct (group_calls st !! chat_id) as [a|] eqn:E; [|by rewrite H].
  destruct (option_like _); [by rewrite H|].
  destruct (delete _ _ !! file_path) as [y|] eqn:I; [|by rewrite H].
  assert (Hne : raw_name chat_id <> file_path).
  { intros <-. by rewrite lookup_delete_eq in I. }
  rewrite lookup_delete_ne in I by done. simplify_eq.
  destruct (ffmpeg_run _ _ _ _) as [|b]; rewrite H; [|done].
  intros [= <-]. unfold transport_content.
  rewrite transport_input_install by done. simpl.
  rewrite lookup_delete_ne by done. apply lookup_insert_eq.
Qed.

(** When the [.play] handler answers that it is playing, the chat's
    transport plays the conversion of what was asked for: of the audio file
    of the message replied to if there is one, and otherwise of what was
    downloaded from the text after [.play]. *)
Theorem play_handler_playing (w : world) (ev : play_event) (st st' : state)
    (replies : list reply_action) :
  play_handler w ev st = (Ret replies, st') ->
  edit "▶️ Playing..." ∈ replies ->
  transport_content st' (event_chat_id ev)
  = Some (Converted voice_format
            match audio_reply (event_reply ev) with
            | Some f => Attachment (media f)
            | None => Downloaded (event_source ev)
            end).
Proof.
  unfold play_handler. unfold_py.
  destruct (bool_decide (is_Some (group_calls st !! event_chat_id ev))); simpl.
  2:{ intros [= <- <-] H. apply list_elem_of_singleton in H. discriminate H. }
  destruct (audio_reply (event_reply ev)) as [f|].
  - unfold download_media.
    set (st0 := set_fs _ st).
    destruct (play_from_file w (event_chat_id ev) (saved_as f) st0)
      as [[b|e] st2] eqn:P; [|done].
    intros [= <- <-] Hin.
    assert (b = true) as ->.
    { destruct b; [done|]. exfalso.
      repeat (apply elem_of_cons in Hin as [Hin|Hin]; [discriminate Hin|]).
      by apply not_elem_of_nil in Hin. }
    eapply play_from_file_true; [|exact P]. apply lookup_insert_eq.
  - destruct (play_audio_result w (event_chat_id ev) (event_source ev) st)
      as (b & st2 & P & Hb).
    rewrite P. intros [= <- <-] Hin.
    assert (b = true) as ->.
    { destruct b; [done|]. exfalso.
      repeat (apply elem_of_cons in Hin as [Hin|Hin]; [discriminate Hin|]).
      by apply not_elem_of_nil in Hin. }
    destruct (play_audio_played w (event_chat_id ev) (event_source ev) st)
      as (a & st3 & _ & P' & _ & _ & Hf & Hi & _); [by apply Hb|].
    rewrite P in P'. injection P' as <-.
    unfold transport_content. by rewrite Hi.
Qed.

Lemma play_handler_playing_witness :
  let f := ReplyFile (Some "audio/ogg") "voice.ogg" "voice" in
  let ev := PlayEvent 100 "https://x/ignored" (Some (Some f)) in
  let st := run good_world [CJoin 100] (init_state ∅) in
  exists replies st',
    play_handler good_world ev st = (Ret replies, st')
    /\ edit "▶️ Playing..." ∈ replies
    /\ transport_content st' 100 = Some (Converted voice_format (Attachment "voice")).
Proof.
  intros f ev st. eexists _, _.
  assert (H : play_handler good_world ev st
              = (Ret [respond "🎵 Downloading..."; edit "⬇️ Downloading audio file...";
                      edit "🔄 Converting..."; edit "▶️ Playing..."],
                 (play_handler good_world ev st).2)) by reflexivity.
  assert (Hin : edit "▶️ Playing..."
                ∈ [respond "🎵 Downloading..."; edit "⬇️ Downloading audio file...";
                   edit "🔄 Converting..."; edit "▶️ Playing..."]).
  { do 3 apply list_elem_of_further. apply list_elem_of_here. }
  split; [exact H|]. split; [exact Hin|].
  exact (play_handler_playing good_world ev st _ _ H Hin).
Defined.

(** ** The settings database *)

Lemma save_data (db_file : string) (io_ok : nat -> bool) (s : Database.t) : Database._data (Database._save db_file io_ok s) = Database._data s.
Proof.
  unfold Database._save. destruct (io_ok _); [|done].
  by destruct (Database.serialisable _ && _).
Qed.

Lemma serialisable_dict (d : gmap string Database.pyval) :
  Database.serialisable (Database.PDict d) = true
  <-> map_Forall (fun _ v => Database.serialisable v = true) d.
Proof.
  cbn [Database.serialisable].
  apply (map_fold_weak_ind
           (fun r (m : gmap string Database.pyval) =>
              r = true <-> map_Forall (fun _ v => Database.serialisable v = true) m)).
  - split; [intros _; apply map_Forall_empty|done].
  - intros k v m r Hk IH. rewrite map_Forall_insert by done.
    rewrite andb_true_iff, IH. done.
Qed.

(** [set] then [get]: on a database that holds a dictionary, [set] stores
    the value under the key whether or not the file could be written, and
    leaves every other key as it was. *)
Theorem database_get_after_set (db_file : string) (io_ok : nat -> bool)
    (s : Database.t) (d : gmap string Database.pyval)
    (key : string) (value dflt : Database.pyval) :
  Database._data s = Database.PDict d ->
  let s' := (Database.set db_file io_ok key value s).2 in
  (Database.set db_file io_ok key value s).1 = Database.Returns tt
  /\ Database.get key dflt s' = Database.Returns value
  /\ (forall k, k <> key -> Database.get k dflt s' = Database.get k dflt s).
Proof.
  intros Hd. unfold Database.set, Database.get. rewrite Hd. simpl.
  rewrite save_data. simpl. split; [done|]. split.
  - by rewrite lookup_insert_eq.
  - intros k Hk. by rewrite lookup_insert_ne.
Qed.

Lemma database_get_after_set_witness :
  let s := Database.__init__ "settings.json" (fun _ => false) ∅ 0 in
  Database._data s = Database.PDict ∅
  /\ Database.get "volume" Database.PNone
       (Database.set "settings.json" (fun _ => false) "volume" (Database.PInt 7) s).2
     = Database.Returns (Database.PInt 7).
Proof.
  intros s. assert (H : Database._data s = Database.PDict ∅) by reflexivity.
  split; [exact H|].
  destruct (database_get_after_set "settings.json" (fun _ => false) s ∅
              "volume" (Database.PInt 7) Database.PNone H) as (_ & Hg & _).
  exact Hg.
Defined.

(** [delete] then [get] gives the default; deleting a key that is not there
    writes nothing and makes no file operation. *)
Theorem database_get_after_delete (db_file : string) (io_ok : nat -> bool)
    (s : Database.t) (d : gmap string Database.pyval)
    (key : string) (dflt : Database.pyval) :
  Database._data s = Database.PDict d ->
  let s' := (Database.delete db_file io_ok key s).2 in
  (Database.delete db_file io_ok key s).1 = Database.Returns tt
  /\ Database.get key dflt s' = Database.Returns dflt
  /\ (forall k, k <> key -> Database.get k dflt s' = Database.get k dflt s)
  /\ (d !! key = None -> s' = s).
Proof.
  intros Hd. unfold Database.delete, Database.get. rewrite Hd.
  case_bool_decide as Hk; simpl.
  - rewrite save_data. simpl. split; [done|]. split.
    + by rewrite lookup_delete_eq.
    + split; [|intros E; rewrite E in Hk; by destruct Hk].
      intros k Hne. by rewrite lookup_delete_ne.
  - rewrite Hd. split; [done|]. split; [|done].
    destruct (d !! key) eqn:E; [|done]. destruct Hk. by eexists.
Qed.

Lemma database_get_after_delete_witness :
  let s := Database.Db (Database.PDict {[ "volume" := Database.PInt 7 ]}) ∅ 0 in
  Database._data s = Database.PDict {[ "volume" := Database.PInt 7 ]}
  /\ Database.get "volume" (Database.PInt 1)
       (Database.delete "settings.json" (fun _ => true) "volume" s).2
     = Database.Returns (Database.PInt 1).
Proof.
  intros s.
  assert (H : Database._data s = Database.PDict {[ "volume" := Database.PInt 7 ]})
    by reflexivity.
  split; [exact H|].
  destruct (database_get_after_delete "settings.json" (fun _ => true) s _
              "volume" (Database.PInt 1) H) as (_ & Hg & _).
  exact Hg.
Defined.

(** Every call that changes the data writes all of it to the file that
    [__init__] reads: after any [set], [delete] and [clear] calls on a
    database made from the disk, a database made from the disk as it is then
    holds exactly what the first one holds in memory.  This is for stored
    values of the modelled kinds ([None], booleans, integers, strings,
    lists and dictionaries with string keys) and file operations that
    succeed. *)
Theorem database_disk_mirrors_memory (db_file : string) (io_ok : nat -> bool)
    (disk : gmap string Database.file) (us : list Database.update) :
  (forall v, disk !! db_file = Some (Database.FJson v) ->
             Database.serialisable v = true) ->
  Forall (fun u => Database.plain_update u = true) us ->
  (forall n, io_ok n = true) ->
  let s := Database.apply_updates db_file io_ok us
             (Database.__init__ db_file io_ok disk 0) in
  Database._data (Database.__init__ db_file io_ok (Database.disk s) (Database.ticks s))
  = Database._data s.
Proof.
  intros Hdisk Hus Hio.
  set (mirror := fun s : Database.t =>
    Database.serialisable (Database._data s) = true
    /\ Database._data
         (Database.__init__ db_file io_ok (Database.disk s) (Database.ticks s))
       = Database._data s).
  assert (Hsave : forall s, Database.serialisable (Database._data s) = true ->
                    mirror (Database._save db_file io_ok s)).
  { intros s Hs. unfold mirror, Database._save. rewrite !Hio, Hs. simpl.
    split; [done|]. unfold Database.__init__, Database._load. simpl.
    by rewrite lookup_insert_eq, Hio. }
  assert (Hstep : forall u s, Database.plain_update u = true ->
                    mirror s -> mirror (Database.apply_update db_file io_ok u s)).
  { intros [key value|key|] s Hu [Hs Hm]; cbn [Database.apply_update].
    - unfold Database.set. destruct (Database._data s) as [| | | | |d|] eqn:Hd;
        try (cbn [snd]; split; rewrite Hd; done).
      cbn [snd]. apply Hsave. cbn [Database._data].
      apply serialisable_dict, map_Forall_insert_2; [done|].
      by apply serialisable_dict.
    - unfold Database.delete.
      destruct (Database._data s) as [| | |s0|l|d|] eqn:Hd;
        try (cbn [snd]; split; rewrite Hd; done).
      + destruct (Database.contains key s0); cbn [snd]; split; rewrite Hd; done.
      + destruct (existsb _ l); cbn [snd]; split; rewrite Hd; done.
      + case_bool_decide; [|cbn [snd]; split; rewrite Hd; done].
        cbn [snd]. apply Hsave. cbn [Database._data].
        apply serialisable_dict, map_Forall_delete. by apply serialisable_dict.
    - apply Hsave. done. }
  assert (Hinit : mirror (Database.__init__ db_file io_ok disk 0)).
  { unfold mirror, Database.__init__, Database._load.
    destruct (disk !! db_file) as [[v|]|] eqn:E; rewrite ?Hio; simpl;
      rewrite ?E, ?Hio; split; try done.
    by apply Hdisk. }
  cut (forall s, mirror s -> mirror (Database.apply_updates db_file io_ok us s)).
  { intros H. by apply H. }
  clear Hinit. unfold Database.apply_updates.
  induction Hus as [|u us Hu Hus IH]; intros s Hs; [done|].
  simpl. apply IH. by apply Hstep.
Qed.

Lemma database_disk_mirrors_memory_witness :
  let us := [Database.USet "api_id" (Database.PInt 5);
             Database.USet "volume" (Database.PList [Database.PInt 7; Database.PNone]);
             Database.UDelete "api_id"] in
  let s := Database.apply_updates "settings.json" (fun _ => true) us
             (Database.__init__ "settings.json" (fun _ => true) ∅ 0) in
  let s' := Database.__init__ "settings.json" (fun _ => true)
              (Database.disk s) (Database.ticks s) in
  Forall (fun u => Database.plain_update u = true) us
  /\ Database.get "volume" Database.PNone s
     = Database.Returns (Database.PList [Database.PInt 7; Database.PNone])
  /\ Database.get "volume" Database.PNone s' = Database.get "volume" Database.PNone s
  /\ Database.get "api_id" Database.PNone s' = Database.Returns Database.PNone.
Proof.
  intros us s s'.
  assert (Hus : Forall (fun u => Database.plain_update u = true) us).
  { repeat (apply Forall_cons_2; [reflexivity|]). apply Forall_nil_2. }
  split; [exact Hus|]. split; [reflexivity|].
  assert (Hd : forall v, (∅ : gmap string Database.file) !! "settings.json"
                         = Some (Database.FJson v) ->
                         Database.serialisable v = true).
  { intros v H. by rewrite lookup_empty in H. }
  pose proof (database_disk_mirrors_memory "settings.json" (fun _ => true) ∅ us
                Hd Hus (fun _ => eq_refl)) as Hr.
  change (Database._data s' = Database._data s) in Hr.
  unfold Database.get. rewrite Hr. split; reflexivity.
Defined.

(** A value [json.dump] refuses: [set] keeps it in memory, but the file,
    already emptied for writing, is left unreadable, and a [Database] made
    from the disk afterwards is empty: every setting is lost. *)
Theorem database_set_unserialisable (db_file : string) (io_ok : nat -> bool)
    (s : Database.t)
    (d : gmap string Database.pyval) (key : string) (value : Database.pyval) :
  Database._data s = Database.PDict d ->
  Database.serialisable value = false ->
  io_ok (Database.ticks s) = true ->
  let s' := (Database.set db_file io_ok key value s).2 in
  (forall dflt, Database.get key dflt s' = Database.Returns value)
  /\ Database.disk s' !! db_file = Some Database.FGarbage
  /\ Database._data (Database.__init__ db_file io_ok (Database.disk s') (Database.ticks s'))
     = Database.PDict ∅.
Proof.
  intros Hd Hv Hio. unfold Database.set. rewrite Hd.
  unfold Database._save. cbn -[Database.serialisable]. rewrite Hio.
  assert (Database.serialisable (Database.PDict (<[key := value]> d)) = false) as ->.
  { apply not_true_is_false. intros H%serialisable_dict.
    specialize (H key value (lookup_insert_eq _ _ _)). simpl in H. congruence. }
  simpl. split; [|split].
  - intros dflt. unfold Database.get. simpl. by rewrite lookup_insert_eq.
  - apply lookup_insert_eq.
  - unfold Database.__init__, Database._load. simpl. rewrite lookup_insert_eq.
    by destruct (io_ok (S (S _))).
Qed.

Lemma database_set_unserialisable_witness :
  let s := Database.Db (Database.PDict {[ "api_id" := Database.PInt 5 ]})
             {[ "settings.json" := Database.FJson
                  (Database.PDict {[ "api_id" := Database.PInt 5 ]}) ]} 0 in
  let s' := (Database.set "settings.json" (fun _ => true) "last"
               (Database.PObject "<datetime>") s).2 in
  Database.serialisable (Database.PObject "<datetime>") = false
  /\ Database.get "api_id" Database.PNone s' = Database.Returns (Database.PInt 5)
  /\ Database.get "api_id" Database.PNone
       (Database.__init__ "settings.json" (fun _ => true)
          (Database.disk s') (Database.ticks s'))
     = Database.Returns Database.PNone.
Proof.
  intros s s'. split; [reflexivity|]. split; [reflexivity|].
  destruct (database_set_unserialisable "settings.json" (fun _ => true) s _
              "last" (Database.PObject "<datetime>") eq_refl eq_refl eq_refl)
    as (_ & _ & Hr).
  unfold Database.get. fold s' in Hr. rewrite Hr. reflexivity.
Defined.

(** [save_credentials] then [get_credentials]: on a database that holds a
    dictionary, the pair comes back if and only if the id is not [0] and the
    hash is not empty; otherwise [get_credentials] answers [None] although
    both are stored. *)
Theorem database_credentials_round_trip (db_file : string) (io_ok : nat -> bool)
    (s : Database.t) (d : gmap string Database.pyval)
    (api_id : Z) (api_hash : string) :
  Database._data s = Database.PDict d ->
  let r := Database.save_credentials db_file io_ok
             (Database.PInt api_id) (Database.PStr api_hash) s in
  r.1 = Database.Returns tt
  /\ Database.get "api_id" Database.PNone r.2 = Database.Returns (Database.PInt api_id)
  /\ Database.get "api_hash" Database.PNone r.2
     = Database.Returns (Database.PStr api_hash)
  /\ Database.get_credentials r.2
     = Database.Returns
         (if bool_decide (api_id <> 0 /\ api_hash <> "")
          then Some (Database.PInt api_id, Database.PStr api_hash) else None).
Proof.
  intros Hd. unfold Database.save_credentials, Database.set. rewrite Hd.
  cbn [fst snd]. rewrite save_data. cbn [Database._data fst snd].
  unfold Database.get_credentials, Database.get. rewrite save_data.
  cbn [Database._data]. rewrite lookup_insert_eq.
  rewrite lookup_insert_ne, lookup_insert_eq by done.
  split; [done|]. split; [done|]. split; [done|]. cbn [default Database.truthy].
  f_equal. cbn [id Database.truthy]. case_bool_decide as H.
  - destruct H as [Hz Hh].
    destruct (Z.eqb_spec api_id 0) as [|_]; [done|].
    by destruct (String.eqb_spec api_hash "") as [|_].
  - destruct (Z.eqb_spec api_id 0) as [|Hz]; [done|].
    destruct (String.eqb_spec api_hash "") as [|Hh]; [done|].
    by destruct H.
Qed.

Lemma database_credentials_round_trip_witness :
  let s := Database.__init__ "settings.json" (fun _ => true) ∅ 0 in
  Database._data s = Database.PDict ∅
  /\ Database.get_credentials
       (Database.save_credentials "settings.json" (fun _ => true)
          (Database.PInt 0) (Database.PStr "0123abcd") s).2
     = Database.Returns None.
Proof.
  intros s. assert (H : Database._data s = Database.PDict ∅) by reflexivity.
  split; [exact H|].
  destruct (database_credentials_round_trip "settings.json" (fun _ => true) s ∅
              0 "0123abcd" H) as (_ & _ & _ & Hc).
  exact Hc.
Defined.

(** A [Database] made from a settings file that is missing, unreadable or
    not JSON is empty; one made from a file holding JSON that is not an
    object keeps that value, and then [get] raises [AttributeError] and
    [set] raises [TypeError] and writes nothing. *)
Theorem database_init_not_object (db_file : string) (io_ok : nat -> bool)
    (disk : gmap string Database.file) (ticks : nat) :
  let s := Database.__init__ db_file io_ok disk ticks in
  Database.disk s = disk
  /\ match disk !! db_file with
     | Some (Database.FJson v) =>
         if io_ok ticks then
           Database._data s = v
           /\ ((forall d, v <> Database.PDict d) ->
               (forall key dflt, Database.get key dflt s
                                 = Database.Raises Database.AttributeError)
               /\ (forall key value, Database.set db_file io_ok key value s
                                     = (Database.Raises Database.TypeError, s)))
         else Database._data s = Database.PDict ∅
     | _ => Database._data s = Database.PDict ∅
     end.
Proof.
  unfold Database.__init__, Database._load.
  destruct (disk !! db_file) as [[v|]|]; [|by destruct (io_ok ticks)|done].
  destruct (io_ok ticks); [|done]. simpl. split; [done|]. split; [done|].
  intros Hv. unfold Database.get, Database.set. simpl.
  destruct v; try done. by destruct (Hv d).
Qed.

(** ** Saved credentials *)

Lemma db_file_not_credentials (db_dir : string) :
  MusicUserbot.db_file db_dir <> MusicUserbot.credentials_file.
Proof.
  unfold MusicUserbot.db_file, MusicUserbot.credentials_file. intros E.
  apply (f_equal (fun s => rev (String.list_ascii_of_string s))) in E.
  rewrite list_ascii_of_string_app, rev_app_distr in E. simpl in E.
  discriminate E.
Qed.

Lemma save_disk_other (db_file : string) (io_ok : nat -> bool) (s : Database.t)
    (p : string) :
  p <> db_file ->
  Database.disk (Database._save db_file io_ok s) !! p = Database.disk s !! p.
Proof.
  intros Hp. unfold Database._save. destruct (io_ok _); [|done].
  destruct (Database.serialisable _ && _); simpl; by rewrite lookup_insert_ne.
Qed.

Lemma set_disk_other (db_file : string) (io_ok : nat -> bool) (s : Database.t)
    (key : string) (value : Database.pyval) (p : string) :
  p <> db_file ->
  Database.disk (Database.set db_file io_ok key value s).2 !! p
  = Database.disk s !! p.
Proof.
  intros Hp. unfold Database.set.
  destruct (Database._data s); try done. simpl. by rewrite save_disk_other.
Qed.

Lemma initialize_credentials_file (db_dir : string) (io_ok : nat -> bool)
    (client_ok : Database.pyval -> Database.pyval -> bool)
    (api_id api_hash : Database.pyval) (u : MusicUserbot.t) :
  Database.disk (MusicUserbot.database
                   (MusicUserbot.initialize db_dir io_ok client_ok api_id api_hash u).2)
    !! MusicUserbot.credentials_file
  = Database.disk (MusicUserbot.database u) !! MusicUserbot.credentials_file.
Proof.
  unfold MusicUserbot.initialize, Database.save_credentials.
  pose proof (not_eq_sym (db_file_not_credentials db_dir)) as Hne.
  pose proof (set_disk_other (MusicUserbot.db_file db_dir) io_ok
                (MusicUserbot.database u) "api_id" api_id _ Hne) as H1.
  destruct (Database.set _ _ "api_id" _ _) as [[[]|e] d1]; simpl in *.
  - pose proof (set_disk_other (MusicUserbot.db_file db_dir) io_ok
                  d1 "api_hash" api_hash _ Hne) as H2.
    destruct (Database.set _ _ "api_hash" _ _) as [[[]|e] d2]; simpl in *.
    + destruct (client_ok api_id api_hash); simpl; by rewrite H2, H1.
    + by rewrite H2, H1.
  - by rewrite H1.
Qed.

Lemma apply_credentials_file (db_dir : string) (io_ok : nat -> bool)
    (client_ok : Database.pyval -> Database.pyval -> bool)
    (tg : MusicUserbot.telegram) (o : MusicUserbot.operation) (u : MusicUserbot.t) :
  Database.disk (MusicUserbot.database
                   (MusicUserbot.apply db_dir io_ok client_ok tg o u))
    !! MusicUserbot.credentials_file
  = Database.disk (MusicUserbot.database u) !! MusicUserbot.credentials_file.
Proof.
  destruct o as [|api_id api_hash| | | | |]; cbn [MusicUserbot.apply].
  - unfold MusicUserbot.connect. by repeat (case_match; simpl in *; simplify_eq).
  - apply initialize_credentials_file.
  - unfold MusicUserbot.auto_initialize.
    destruct (negb _); [done|].
    destruct (Database.get_credentials _) as [[[a h]|]|]; try done.
    pose proof (initialize_credentials_file db_dir io_ok client_ok a h u) as H.
    by destruct (MusicUserbot.initialize _ _ _ _ _ _) as [[|] u1].
  - unfold MusicUserbot.start, MusicUserbot.connect, MusicUserbot.finish_login.
    by repeat (case_match; simpl in *; simplify_eq).
  - unfold MusicUserbot.send_code, MusicUserbot.connect.
    by repeat (case_match; simpl in *; simplify_eq).
  - unfold MusicUserbot.verify_code, MusicUserbot.finish_login.
    by repeat (case_match; simpl in *; simplify_eq).
  - unfold MusicUserbot.api_logout, MusicUserbot.disconnect_client.
    repeat (case_match; simpl in *; simplify_eq); try done;
      by rewrite lookup_delete_ne.
Qed.

(** The credentials go into the settings file, and nothing the userbot does
    ever makes the credentials file that [has_saved_credentials] looks for:
    after any operations, [has_saved_credentials] is what it was on the disk
    the userbot started from, and if the file was not there
    [auto_initialize] answers [False] and changes nothing, whatever was
    initialised before. *)
Theorem credentials_file_never_written (db_dir : string)
    (io_ok : nat -> bool) (client_ok : Database.pyval -> Database.pyval -> bool)
    (tg : MusicUserbot.telegram) (os : list MusicUserbot.operation)
    (disk : gmap string Database.file) :
  let u := MusicUserbot.apply_all db_dir io_ok client_ok tg os
             (MusicUserbot.__init__ db_dir io_ok disk) in
  MusicUserbot.has_saved_credentials u
  = bool_decide (is_Some (disk !! MusicUserbot.credentials_file))
  /\ (disk !! MusicUserbot.credentials_file = None ->
      MusicUserbot.auto_initialize db_dir io_ok client_ok u = (false, u)).
Proof.
  intros u.
  assert (H : Database.disk (MusicUserbot.database u) !! MusicUserbot.credentials_file
              = disk !! MusicUserbot.credentials_file).
  { subst u. unfold MusicUserbot.apply_all.
    assert (Hinit : Database.disk (MusicUserbot.database
                      (MusicUserbot.__init__ db_dir io_ok disk)) = disk).
    { unfold MusicUserbot.__init__, Database.__init__. simpl.
      by destruct (Database._load _ _ _ _). }
    rewrite <-Hinit at 2. generalize (MusicUserbot.__init__ db_dir io_ok disk).
    induction os as [|o os IH]; intros u0; [done|].
    simpl. rewrite IH. apply apply_credentials_file. }
  assert (Hh : MusicUserbot.has_saved_credentials u
               = bool_decide (is_Some (disk !! MusicUserbot.credentials_file))).
  { unfold MusicUserbot.has_saved_credentials. by rewrite H. }
  split; [exact Hh|]. intros Hno. unfold MusicUserbot.auto_initialize.
  rewrite Hh, Hno. rewrite bool_decide_eq_false_2; [done|]. by intros [? ?].
Qed.

Lemma credentials_file_never_written_witness :
  let u := MusicUserbot.apply_all "/srv/bot/data" (fun _ => true) (fun _ _ => true)
             (telegram_ok false)
             [MusicUserbot.OInitialize (Database.PInt 5) (Database.PStr "abc")]
             (MusicUserbot.__init__ "/srv/bot/data" (fun _ => true) ∅) in
  Database.get_credentials (MusicUserbot.database u)
  = Database.Returns (Some (Database.PInt 5, Database.PStr "abc"))
  /\ MusicUserbot.auto_initialize "/srv/bot/data" (fun _ => true) (fun _ _ => true) u
     = (false, u).
Proof.
  intros u. split; [reflexivity|].
  destruct (credentials_file_never_written "/srv/bot/data" (fun _ => true)
              (fun _ _ => true) (telegram_ok false)
              [MusicUserbot.OInitialize (Database.PInt 5) (Database.PStr "abc")] ∅)
    as [_ H].
  apply H. reflexivity.
Defined.

(** ** Access to the web interface *)

(** Setting a header that is there more than once: the first entry is
    replaced where it stands, the later ones go, the rest stays in order. *)
Example header_set_repeated :
  WebServer.header_set "cache-control" "no-store"
    [("A", "1"); ("Cache-Control", "a"); ("B", "2"); ("CACHE-CONTROL", "b");
     ("B", "3")]
  = [("A", "1"); ("cache-control", "no-store"); ("B", "2"); ("B", "3")].
Proof. vm_compute. done. Qed.

Lemma same_name_refl (k : string) : WebServer.same_name k k = true.
Proof. apply String.eqb_refl. Qed.

Lemma same_name_trans (a b c : string) :
  WebServer.same_name a b = true ->
  WebServer.same_name b c = WebServer.same_name a c.
Proof.
  unfold WebServer.same_name. intros H%String.eqb_eq. by rewrite H.
Qed.

Lemma filter_filter_out {A} (P Q : A -> Prop) `{HdP : !forall x, Decision (P x)}
    `{HdQ : !forall x, Decision (Q x)} (l : list A) :
  (forall x, P x -> ~ Q x) -> filter P (filter Q l) = [].
Proof.
  intros H. induction l as [|x l IH]; [done|].
  rewrite (filter_cons Q). case_decide as HQ; [|done].
  rewrite filter_cons_False; [done|]. intros HP. by apply (H x).
Qed.

Lemma filter_filter_in {A} (P Q : A -> Prop) `{HdP : !forall x, Decision (P x)}
    `{HdQ : !forall x, Decision (Q x)} (l : list A) :
  (forall x, P x -> Q x) -> filter P (filter Q l) = filter P l.
Proof.
  intros H. induction l as [|x l IH]; [done|].
  rewrite (filter_cons Q). case_decide as HQ.
  - rewrite !(filter_cons P). by rewrite IH.
  - rewrite (filter_cons_False P x l); [done|]. intros HP. by apply HQ, H.
Qed.

(** Setting a header leaves exactly one entry under its name. *)
Lemma named_header_set_same (key key' v : string) (h : list (string * string)) :
  WebServer.same_name key key' = true ->
  WebServer.named key' (WebServer.header_set key v h) = [(key, v)].
Proof.
  intros Hk. unfold WebServer.named.
  induction h as [|[k0 v0] h IH]; simpl.
  - by rewrite filter_cons_True.
  - destruct (WebServer.same_name k0 key) eqn:H0.
    + rewrite filter_cons_True by done. f_equal.
      apply filter_filter_out. intros [k1 v1]. simpl. intros H1 H2.
      rewrite <-(same_name_trans k1 key' key) in H2 by done.
      rewrite (same_name_trans key key' key) in H2 by done.
      by rewrite same_name_refl in H2.
    + rewrite filter_cons_False; [done|]. simpl. intros H1.
      rewrite <-(same_name_trans k0 key' key) in H0 by done.
      rewrite (same_name_trans key key' key) in H0 by done.
      by rewrite same_name_refl in H0.
Qed.

(** Setting a header changes no entry under another name. *)
Lemma filter_header_set_other (P : string -> Prop) `{HdP : !forall k, Decision (P k)}
    (key v : string) (h : list (string * string)) :
  (forall k, WebServer.same_name k key = true -> ~ P k) ->
  filter (fun kv => P kv.1) (WebServer.header_set key v h)
  = filter (fun kv => P kv.1) h.
Proof.
  intros HP. induction h as [|[k0 v0] h IH]; simpl.
  - rewrite filter_cons_False; [done|]. simpl. apply HP, same_name_refl.
  - destruct (WebServer.same_name k0 key) eqn:H0.
    + rewrite filter_cons_False by (simpl; apply HP, same_name_refl).
      rewrite (filter_cons_False _ (k0, v0)) by (simpl; by apply HP).
      apply filter_filter_in. intros [k1 v1]. simpl. intros H1.
      destruct (WebServer.same_name k1 key) eqn:H2; [|done].
      by destruct (HP k1).
    + rewrite !filter_cons. simpl. by rewrite IH.
Qed.

(** Whatever a handler returns or raises as an [HTTPException] leaves the
    middleware as a response with the same status and body.  Each of the
    four security headers is there exactly once, with the middleware's
    value, whatever the handler had put under that name in any spelling and
    however often; [Cache-Control] is [no-store] for a 401.  All other
    headers, repeated ones included, are as the handler left them, in the
    same order.  Any other exception passes through. *)
Theorem middleware_headers {S : Type}
    (handler : WebServer.request -> S -> WebServer.handled * S)
    (req : WebServer.request) (s : S) :
  match handler req s with
  | (WebServer.RaisesOther, s') =>
      WebServer._security_headers_middleware handler req s
      = (WebServer.RaisesOther, s')
  | (WebServer.Responds r, s') | (WebServer.RaisesHTTP r, s') =>
      exists r',
        WebServer._security_headers_middleware handler req s
        = (WebServer.Responds r', s')
        /\ WebServer.status r' = WebServer.status r
        /\ WebServer.body r' = WebServer.body r
        /\ WebServer.named "Referrer-Policy" (WebServer.resp_headers r')
           = [("Referrer-Policy", "no-referrer")]
        /\ WebServer.named "X-Content-Type-Options" (WebServer.resp_headers r')
           = [("X-Content-Type-Options", "nosniff")]
        /\ WebServer.named "X-Frame-Options" (WebServer.resp_headers r')
           = [("X-Frame-Options", "SAMEORIGIN")]
        /\ WebServer.named "Cache-Control" (WebServer.resp_headers r')
           = [("Cache-Control",
               if Z.eqb (WebServer.status r) 401 then "no-store"
               else "no-store, no-cache, must-revalidate, private")]
        /\ filter (fun kv => WebServer.security_header kv.1 = false)
                  (WebServer.resp_headers r')
           = filter (fun kv => WebServer.security_header kv.1 = false)
                    (WebServer.resp_headers r)
  end.
Proof.
  assert (Hother : forall key key' v h,
            WebServer.same_name key key' = false ->
            WebServer.named key' (WebServer.header_set key v h)
            = WebServer.named key' h).
  { intros key key' v h Hk. unfold WebServer.named.
    refine (filter_header_set_other
              (fun k => WebServer.same_name k key' = true) key v h _).
    intros k H1 H2. rewrite (same_name_trans k key key') in Hk by done.
    congruence. }
  assert (Hrest : forall key v h,
            WebServer.security_header key = true ->
            filter (fun kv => WebServer.security_header kv.1 = false)
                   (WebServer.header_set key v h)
            = filter (fun kv => WebServer.security_header kv.1 = false) h).
  { intros key v h Hk.
    refine (filter_header_set_other
              (fun k => WebServer.security_header k = false) key v h _).
    intros k H1 H2. unfold WebServer.security_header in *.
    rewrite !(same_name_trans k key) in Hk by done. congruence. }
  assert (Hadd : forall r,
    let r' := WebServer.add_security_headers r in
    WebServer.status r' = WebServer.status r
    /\ WebServer.body r' = WebServer.body r
    /\ WebServer.named "Referrer-Policy" (WebServer.resp_headers r')
       = [("Referrer-Policy", "no-referrer")]
    /\ WebServer.named "X-Content-Type-Options" (WebServer.resp_headers r')
       = [("X-Content-Type-Options", "nosniff")]
    /\ WebServer.named "X-Frame-Options" (WebServer.resp_headers r')
       = [("X-Frame-Options", "SAMEORIGIN")]
    /\ WebServer.named "Cache-Control" (WebServer.resp_headers r')
       = [("Cache-Control",
           if Z.eqb (WebServer.status r) 401 then "no-store"
           else "no-store, no-cache, must-revalidate, private")]
    /\ filter (fun kv => WebServer.security_header kv.1 = false)
              (WebServer.resp_headers r')
       = filter (fun kv => WebServer.security_header kv.1 = false)
                (WebServer.resp_headers r)).
  { intros r. unfold WebServer.add_security_headers. cbn [WebServer.status
      WebServer.body WebServer.resp_headers].
    split; [done|]. split; [done|].
    destruct (Z.eqb (WebServer.status r) 401);
      (split; [|split; [|split; [|split]]]);
      repeat first
        [ rewrite named_header_set_same by reflexivity
        | rewrite Hother by reflexivity
        | rewrite Hrest by reflexivity ];
      done. }
  destruct (handler req s) as [[r|r|] s'] eqn:Hh;
    unfold WebServer._security_headers_middleware; rewrite Hh; [| |done].
  - eexists. split; [reflexivity|]. apply Hadd.
  - eexists. split; [reflexivity|]. apply Hadd.
Qed.

(** A route wrapped in [_require_auth] behind the middleware: a request
    whose first [Authorization] header is not exactly [Bearer <secret>]
    gets the 401 answer with [Cache-Control: no-store], and the handler is
    not run: the state is as it was. *)
Theorem unauthenticated_gets_401 {S : Type} (auth_secret : string)
    (handler : WebServer.request -> S -> WebServer.handled * S)
    (req : WebServer.request) (s : S) :
  WebServer.header_get "Authorization" (WebServer.req_headers req)
  <> Some ("Bearer " +:+ auth_secret) ->
  exists r,
    WebServer._security_headers_middleware
      (WebServer._require_auth auth_secret handler) req s
    = (WebServer.Responds r, s)
    /\ WebServer.status r = 401
    /\ WebServer.body r = WebServer.body WebServer.auth_required
    /\ WebServer.header_get "Cache-Control" (WebServer.resp_headers r)
       = Some "no-store"
    /\ WebServer.header_get "Content-Type" (WebServer.resp_headers r)
       = Some "application/json; charset=utf-8".
Proof.
  intros Hno. unfold WebServer._security_headers_middleware, WebServer._require_auth,
    WebServer._check_auth.
  rewrite bool_decide_eq_false_2 by done. simpl. eexists. split; [reflexivity|].
  by vm_compute.
Qed.

Lemma unauthenticated_gets_401_witness :
  let req := WebServer.Request [("authorization", "Bearer guess"); ("Authorization", "Bearer s3cret")] in
  let handler := fun (_ : WebServer.request) (n : nat) =>
                   (WebServer.Responds (WebServer.json_response Database.PNone 200), Datatypes.S n) in
  WebServer.header_get "Authorization" (WebServer.req_headers req)
  <> Some ("Bearer " +:+ "s3cret")
  /\ exists r,
       WebServer._security_headers_middleware
         (WebServer._require_auth "s3cret" handler) req 0%nat
       = (WebServer.Responds r, 0%nat)
       /\ WebServer.status r = 401.
Proof.
  intros req handler.
  assert (H : WebServer.header_get "Authorization" (WebServer.req_headers req)
              <> Some ("Bearer " +:+ "s3cret")) by (by vm_compute).
  split; [exact H|].
  destruct (unauthenticated_gets_401 "s3cret" handler req 0%nat H)
    as (r & Hr & Hs & _).
  exists r. split; [exact Hr|exact Hs].
Defined.

(** ** Logging in *)

Section Login.
Variable db_dir : string.
Variable io_ok : nat -> bool.
Variable client_ok : Database.pyval -> Database.pyval -> bool.
Variable tg : MusicUserbot.telegram.

Lemma finish_login_shape (u : MusicUserbot.t) :
  let r := MusicUserbot.finish_login tg u in
  MusicUserbot.client r.2 = MusicUserbot.client u
  /\ MusicUserbot.pending_code_hash r.2 = MusicUserbot.pending_code_hash u
  /\ MusicUserbot.calls r.2 = MusicUserbot.calls u ++ [MusicUserbot.GetMe]
  /\ (r.1 = true <->
      exists account,
        MusicUserbot.tg_get_me tg (MusicUserbot.calls u)
        = MusicUserbot.MeUser account)
  /\ (forall account,
        MusicUserbot.tg_get_me tg (MusicUserbot.calls u)
        = MusicUserbot.MeUser account ->
        MusicUserbot.is_authenticated r.2 = true
        /\ MusicUserbot.me r.2 = Some account).
Proof.
  unfold MusicUserbot.finish_login.
  destruct (MusicUserbot.tg_get_me tg _) as [account| |]; simpl;
    (split; [done|]); (split; [done|]); (split; [done|]).
  - split; [split; [by eexists|done]|]. by intros ? [= <-].
  - split; [split; [done|by intros [? ?]]|done].
  - split; [split; [done|by intros [? ?]]|done].
Qed.

(** [start] answers [True] exactly when there is a client, the connection
    succeeds, Telegram says that the session is authorised, no
    re-authentication was asked for, and [get_me()] returns an account; the
    userbot is then authenticated as that account, after exactly these three
    requests.  When the session is not authorised, or with [force_auth],
    the answer is [False], the login state is left as it was and [get_me()]
    is not asked. *)
Theorem start_spec (force_auth : bool) (u : MusicUserbot.t) :
  let r := MusicUserbot.start tg force_auth u in
  let asked := MusicUserbot.calls u ++ [MusicUserbot.Connect] in
  (r.1 = true <->
     exists account,
       is_Some (MusicUserbot.client u)
       /\ force_auth = false
       /\ MusicUserbot.tg_connect tg (MusicUserbot.calls u) = true
       /\ MusicUserbot.tg_authorized tg asked = Some true
       /\ MusicUserbot.tg_get_me tg (asked ++ [MusicUserbot.IsUserAuthorized])
          = MusicUserbot.MeUser account)
  /\ (forall account,
        r.1 = true ->
        MusicUserbot.tg_get_me tg (asked ++ [MusicUserbot.IsUserAuthorized])
        = MusicUserbot.MeUser account ->
        MusicUserbot.is_authenticated r.2 = true
        /\ MusicUserbot.me r.2 = Some account
        /\ MusicUserbot.calls r.2
           = MusicUserbot.calls u
             ++ [MusicUserbot.Connect; MusicUserbot.IsUserAuthorized;
                 MusicUserbot.GetMe])
  /\ (force_auth = true
      \/ MusicUserbot.tg_authorized tg asked = Some false ->
      r.1 = false
      /\ MusicUserbot.is_authenticated r.2 = MusicUserbot.is_authenticated u
      /\ MusicUserbot.me r.2 = MusicUserbot.me u
      /\ exists l, MusicUserbot.calls r.2 = MusicUserbot.calls u ++ l
                   /\ MusicUserbot.GetMe ∉ l).
Proof.
  intros r asked. subst r.
  unfold MusicUserbot.start, MusicUserbot.connect.
  destruct (MusicUserbot.client u) as [c|] eqn:Hc.
  2:{ cbn [fst snd]. split; [split; [done|by intros (? & [? ?] & _)]|].
      split; [done|]. intros _. split; [done|]. split; [done|]. split; [done|].
      exists []. split; [by rewrite app_nil_r|apply not_elem_of_nil]. }
  destruct (MusicUserbot.tg_connect tg _) eqn:Hconn.
  2:{ cbn [fst snd]. split; [split; [done|by intros (? & _ & _ & ? & _)]|].
      split; [done|]. intros _. split; [done|]. split; [done|]. split; [done|].
      exists [MusicUserbot.Connect]. split; [done|].
      by intros ?%list_elem_of_singleton. }
  cbn [MusicUserbot.calls MusicUserbot.called MusicUserbot.with_client].
  fold asked.
  set (x := MusicUserbot.called MusicUserbot.IsUserAuthorized _).
  assert (Hx : MusicUserbot.calls x = asked ++ [MusicUserbot.IsUserAuthorized])
    by done.
  assert (Hxa : MusicUserbot.is_authenticated x = MusicUserbot.is_authenticated u)
    by done.
  assert (Hxm : MusicUserbot.me x = MusicUserbot.me u) by done.
  assert (Hl : MusicUserbot.GetMe
               ∉ [MusicUserbot.Connect; MusicUserbot.IsUserAuthorized]).
  { intros H. repeat (apply elem_of_cons in H as [H|H]; [discriminate H|]).
    by apply not_elem_of_nil in H. }
  assert (Hfail : forall y : bool * MusicUserbot.t, y = (false, x) ->
            (y.1 = true <-> False)
            /\ y.1 = false
            /\ MusicUserbot.is_authenticated y.2 = MusicUserbot.is_authenticated u
            /\ MusicUserbot.me y.2 = MusicUserbot.me u
            /\ exists l, MusicUserbot.calls y.2 = MusicUserbot.calls u ++ l
                         /\ MusicUserbot.GetMe ∉ l).
  { intros y ->. cbn [fst snd]. split; [done|]. split; [done|].
    split; [done|]. split; [done|].
    exists [MusicUserbot.Connect; MusicUserbot.IsUserAuthorized].
    split; [|done]. rewrite Hx. unfold asked. by rewrite <-app_assoc. }
  destruct (MusicUserbot.tg_authorized tg asked) as [[|]|] eqn:Hauth.
  - destruct force_auth; cbn [andb negb].
    + destruct (Hfail _ eq_refl) as (H1 & H2 & H3 & H4 & H5).
      split; [split; [by intros ?%H1|by intros (? & _ & ? & _)]|].
      split; [by intros ? ?%H1|]. done.
    + destruct (finish_login_shape x) as (_ & _ & Hcalls & Hiff & Hme).
      rewrite Hx in Hiff, Hme.
      split; [|split].
      * rewrite Hiff. split.
        -- intros [account Ha]. exists account. by repeat split; [eexists|..].
        -- intros (account & _ & _ & _ & _ & Ha). by exists account.
      * intros account _ Ha. destruct (Hme account Ha) as [? ?].
        split; [done|]. split; [done|]. rewrite Hcalls, Hx. unfold asked.
        by rewrite <-!app_assoc.
      * by intros [?|?].
  - destruct (Hfail _ eq_refl) as (H1 & H2 & H3 & H4 & H5). cbn [andb].
    split; [split; [by intros ?%H1|by intros (? & _ & _ & _ & ? & _)]|].
    split; [by intros ? ?%H1|]. done.
  - destruct (Hfail _ eq_refl) as (H1 & H2 & H3 & H4 & H5).
    split; [split; [by intros ?%H1|by intros (? & _ & _ & _ & ? & _)]|].
    split; [by intros ? ?%H1|]. done.
Qed.

(** [verify_code] answers success only after signing in with the pending
    code hash.  When Telegram accepted the code, that one request and
    [get_me()] are all that was asked; when Telegram asked for the second
    factor, a password that is not empty was given, the sign-in with it was
    accepted, and it stands between the two.  In both cases [get_me()]
    returned an account, and the userbot is authenticated as that
    account. *)
Theorem verify_code_success (code : string) (password : option string)
    (u u' : MusicUserbot.t) :
  MusicUserbot.verify_code tg code password u = (MusicUserbot.Success, u') ->
  MusicUserbot.is_authenticated u' = true
  /\ is_Some (MusicUserbot.client u)
  /\ exists h account,
       MusicUserbot.pending_code_hash u = Some h /\ h <> ""
       /\ MusicUserbot.me u' = Some account
       /\ let asked := MusicUserbot.calls u ++ [MusicUserbot.SignInCode code h] in
          match MusicUserbot.tg_sign_in_code tg (MusicUserbot.calls u) code h with
          | MusicUserbot.SignedIn =>
              MusicUserbot.tg_get_me tg asked = MusicUserbot.MeUser account
              /\ MusicUserbot.calls u' = asked ++ [MusicUserbot.GetMe]
          | MusicUserbot.PasswordNeeded =>
              exists pw,
                password = Some pw /\ pw <> ""
                /\ MusicUserbot.tg_sign_in_password tg asked pw = true
                /\ MusicUserbot.tg_get_me tg
                     (asked ++ [MusicUserbot.SignInPassword pw])
                   = MusicUserbot.MeUser account
                /\ MusicUserbot.calls u'
                   = asked ++ [MusicUserbot.SignInPassword pw; MusicUserbot.GetMe]
          | MusicUserbot.SignInError => False
          end.
Proof.
  unfold MusicUserbot.verify_code.
  destruct (MusicUserbot.pending_code_hash u) as [[|a h]|] eqn:Hp; try done.
  destruct (MusicUserbot.client u) as [c|]; [|done].
  destruct (MusicUserbot.tg_sign_in_code tg _ code _) eqn:Hs; [| |done].
  - match goal with
    | |- context [MusicUserbot.finish_login tg ?x] =>
        destruct (finish_login_shape x) as (_ & _ & Hc & Hiff & Hme);
        destruct (MusicUserbot.finish_login tg x) as [[|] u2]
    end; [|done].
    intros [= <-]. cbn [fst snd] in *.
    destruct (proj1 Hiff eq_refl) as [account Ha].
    destruct (Hme account Ha) as [Hauth Hacc].
    split; [done|]. split; [by eexists|]. exists (String a h), account.
    split; [done|]. split; [done|]. split; [done|]. cbv zeta. rewrite Hs.
    split; [exact Ha|exact Hc].
  - destruct password as [[|b pw]|]; try done. cbn [MusicUserbot.no_password default].
    cbn [id]. destruct (MusicUserbot.tg_sign_in_password tg _ _) eqn:Hpw; [|done].
    match goal with
    | |- context [MusicUserbot.finish_login tg ?x] =>
        destruct (finish_login_shape x) as (_ & _ & Hc & Hiff & Hme);
        destruct (MusicUserbot.finish_login tg x) as [[|] u2]
    end; [|done].
    intros [= <-]. cbn [fst snd] in *.
    destruct (proj1 Hiff eq_refl) as [account Ha].
    destruct (Hme account Ha) as [Hauth Hacc].
    split; [done|]. split; [by eexists|]. exists (String a h), account.
    split; [done|]. split; [done|]. split; [done|]. cbv zeta. rewrite Hs.
    exists (String b pw). split; [done|]. split; [done|]. split; [exact Hpw|].
    split; [exact Ha|]. rewrite Hc. simpl. by rewrite <-!app_assoc.
Qed.

(** When Telegram asks for the second factor and no password was given,
    [verify_code] says so after that one request, and leaves the login state
    and the pending code hash as they were, so that the code can be sent
    again with the password. *)
Theorem verify_code_two_factor (code : string) (password : option string)
    (u u' : MusicUserbot.t) :
  MusicUserbot.verify_code tg code password u
  = (MusicUserbot.TwoFactorRequired, u') ->
  MusicUserbot.no_password password = true
  /\ MusicUserbot.is_authenticated u' = MusicUserbot.is_authenticated u
  /\ MusicUserbot.me u' = MusicUserbot.me u
  /\ MusicUserbot.pending_code_hash u' = MusicUserbot.pending_code_hash u
  /\ exists h,
       MusicUserbot.pending_code_hash u = Some h
       /\ MusicUserbot.tg_sign_in_code tg (MusicUserbot.calls u) code h
          = MusicUserbot.PasswordNeeded
       /\ MusicUserbot.calls u'
          = MusicUserbot.calls u ++ [MusicUserbot.SignInCode code h].
Proof.
  unfold MusicUserbot.verify_code.
  destruct (MusicUserbot.pending_code_hash u) as [[|a h]|] eqn:Hp; try done.
  destruct (MusicUserbot.client u) as [c|]; [|done].
  destruct (MusicUserbot.tg_sign_in_code tg _ code _) eqn:Hs; [| |done].
  - by destruct (MusicUserbot.finish_login tg _) as [[|] u2].
  - destruct (MusicUserbot.no_password password) eqn:Hn.
    + intros [= <-]. simpl. split; [done|]. split; [done|]. split; [done|].
      split; [done|]. by eexists.
    + destruct (MusicUserbot.tg_sign_in_password tg _ _); [|done].
      by destruct (MusicUserbot.finish_login tg _) as [[|] u2].
Qed.

End Login.

Lemma verify_code_success_witness :
  let u := waiting_for_code true in
  exists u',
    MusicUserbot.verify_code (telegram_ok true) "12345" (Some "pw") u
    = (MusicUserbot.Success, u')
    /\ MusicUserbot.is_authenticated u' = true
    /\ is_Some (MusicUserbot.me u').
Proof.
  intros u. eexists.
  assert (H : MusicUserbot.verify_code (telegram_ok true) "12345" (Some "pw") u
              = (MusicUserbot.Success,
                 (MusicUserbot.verify_code (telegram_ok true) "12345" (Some "pw") u).2))
    by reflexivity.
  split; [exact H|].
  destruct (verify_code_success (telegram_ok true) "12345" (Some "pw") u _ H)
    as (Ha & _ & h & account & _ & _ & Hm & _).
  split; [exact Ha|]. rewrite Hm. by eexists.
Defined.

Lemma verify_code_two_factor_witness :
  let u := waiting_for_code true in
  exists u',
    MusicUserbot.verify_code (telegram_ok true) "12345" None u
    = (MusicUserbot.TwoFactorRequired, u')
    /\ MusicUserbot.is_authenticated u' = false
    /\ MusicUserbot.pending_code_hash u' = Some "hash".
Proof.
  intros u. eexists.
  assert (H : MusicUserbot.verify_code (telegram_ok true) "12345" None u
              = (MusicUserbot.TwoFactorRequired,
                 (MusicUserbot.verify_code (telegram_ok true) "12345" None u).2))
    by reflexivity.
  split; [exact H|].
  destruct (verify_code_two_factor (telegram_ok true) "12345" None u _ H)
    as (_ & Ha & _ & Hp & _).
  split; [rewrite Ha|rewrite Hp]; reflexivity.
Defined.

Lemma apply_keeps_client (db_dir : string) (io_ok : nat -> bool)
    (client_ok : Database.pyval -> Database.pyval -> bool)
    (tg : MusicUserbot.telegram) (o : MusicUserbot.operation) (u : MusicUserbot.t) :
  is_Some (MusicUserbot.client u) ->
  is_Some (MusicUserbot.client (MusicUserbot.apply db_dir io_ok client_ok tg o u)).
Proof.
  intros [c Hc].
  destruct o; unfold MusicUserbot.apply, MusicUserbot.initialize,
    MusicUserbot.auto_initialize, MusicUserbot.initialize, MusicUserbot.start,
    MusicUserbot.send_code, MusicUserbot.verify_code, MusicUserbot.api_logout,
    MusicUserbot.disconnect_client, MusicUserbot.connect,
    MusicUserbot.finish_login;
    rewrite ?Hc; repeat (case_match; simpl in *; simplify_eq);
    rewrite ?Hc; by eexists.
Qed.

Lemma apply_without_client (db_dir : string) (io_ok : nat -> bool)
    (client_ok : Database.pyval -> Database.pyval -> bool)
    (tg : MusicUserbot.telegram) (o : MusicUserbot.operation) (u : MusicUserbot.t) :
  let u' := MusicUserbot.apply db_dir io_ok client_ok tg o u in
  MusicUserbot.client u = None ->
  MusicUserbot.pending_code_hash u = None ->
  MusicUserbot.client u' = None ->
  MusicUserbot.calls u' = MusicUserbot.calls u
  /\ MusicUserbot.pending_code_hash u' = None
  /\ (MusicUserbot.is_authenticated u = false ->
      MusicUserbot.is_authenticated u' = false)
  /\ (MusicUserbot.me u = None -> MusicUserbot.me u' = None).
Proof.
  intros u' Hc Hp. subst u'.
  destruct o; unfold MusicUserbot.apply, MusicUserbot.initialize,
    MusicUserbot.auto_initialize, MusicUserbot.initialize, MusicUserbot.start,
    MusicUserbot.send_code, MusicUserbot.verify_code, MusicUserbot.api_logout,
    MusicUserbot.disconnect_client, MusicUserbot.connect;
    rewrite ?Hc, ?Hp; repeat (case_match; simpl in *; simplify_eq);
    rewrite ?Hc, ?Hp; done.
Qed.

(** Before a client exists nothing is asked of Telegram: whatever the web
    interface and the start-up do, and in whatever order, as long as the
    userbot has no client it has made no request, is not authenticated,
    knows no account and has no pending code. *)
Theorem no_client_no_request (db_dir : string) (io_ok : nat -> bool)
    (client_ok : Database.pyval -> Database.pyval -> bool)
    (tg : MusicUserbot.telegram) (os : list MusicUserbot.operation)
    (disk : gmap string Database.file) :
  let u := MusicUserbot.apply_all db_dir io_ok client_ok tg os
             (MusicUserbot.__init__ db_dir io_ok disk) in
  MusicUserbot.client u = None ->
  MusicUserbot.calls u = []
  /\ MusicUserbot.is_authenticated u = false
  /\ MusicUserbot.me u = None
  /\ MusicUserbot.pending_code_hash u = None.
Proof.
  unfold MusicUserbot.apply_all.
  assert (Hstep : forall os u0,
    (MusicUserbot.client u0 = None ->
       MusicUserbot.calls u0 = [] /\ MusicUserbot.is_authenticated u0 = false
       /\ MusicUserbot.me u0 = None /\ MusicUserbot.pending_code_hash u0 = None) ->
    let u := foldl (fun u o => MusicUserbot.apply db_dir io_ok client_ok tg o u) u0 os in
    MusicUserbot.client u = None ->
    MusicUserbot.calls u = [] /\ MusicUserbot.is_authenticated u = false
    /\ MusicUserbot.me u = None /\ MusicUserbot.pending_code_hash u = None).
  { clear os. intros os. induction os as [|o os IH]; intros u0 H0; [done|].
    simpl. apply IH. intros Hnone.
    destruct (MusicUserbot.client u0) as [c|] eqn:Hc.
    - destruct (apply_keeps_client db_dir io_ok client_ok tg o u0) as [c' Hc'];
        [by eexists|]. congruence.
    - destruct (H0 eq_refl) as (Hcalls & Ha & Hm & Hp).
      destruct (apply_without_client db_dir io_ok client_ok tg o u0 Hc Hp Hnone)
        as (Hcalls' & Hp' & Ha' & Hm').
      rewrite Hcalls'. auto. }
  apply Hstep. by intros _.
Qed.

Lemma no_client_no_request_witness :
  let u := MusicUserbot.apply_all "/srv/bot/data" (fun _ => true) (fun _ _ => true)
             (telegram_ok false)
             [MusicUserbot.OStart false; MusicUserbot.OSendCode "+100";
              MusicUserbot.OVerifyCode "12345" None; MusicUserbot.OLogout]
             (MusicUserbot.__init__ "/srv/bot/data" (fun _ => true) ∅) in
  MusicUserbot.client u = None
  /\ MusicUserbot.calls u = []
  /\ MusicUserbot.is_authenticated u = false.
Proof.
  intros u. assert (H : MusicUserbot.client u = None) by reflexivity.
  split; [exact H|].
  destruct (no_client_no_request "/srv/bot/data" (fun _ => true) (fun _ _ => true)
              (telegram_ok false)
              [MusicUserbot.OStart false; MusicUserbot.OSendCode "+100";
               MusicUserbot.OVerifyCode "12345" None; MusicUserbot.OLogout]
              ∅ H) as (Hc & Ha & _).
  split; [exact Hc|exact Ha].
Defined.
